(** * Git Grep search runner (src/plugins/git/gitgrep.cpp)

    A shallow embedding of [GitGrepRunner] (argument building, chunk
    reading, per-line decoding of the colour markers, classification of the
    process result) and of [GitGrep::openEditor], with the properties the
    specification states about them.

    Qt values are modelled as the code has them: a [QString] is the list of
    its code units, an [int] is a [Z] (string sizes fit an [int], so no
    wrap-around arises), "not found" is [-1]. *)

From Stdlib Require Import ZArith NArith List Bool Lia Sorted.
From Stdlib.Strings Require Import String Ascii Byte.
Import ListNotations.

Local Open Scope Z_scope.
Local Open Scope list_scope.

(* [String] also exports [length] and [concat]; the lists' are meant here. *)
Abbreviation length := List.length (only parsing).
Abbreviation concat := List.concat (only parsing).

(** ** Qt strings *)

Module Qt.

Definition QChar := N.
Definition QString := list QChar.
Definition QStringList := list QString.
Definition QByteArray := list byte.

(** [QLatin1String("...")], [QLatin1Char('.')] and [QChar::Null]. *)
Definition QLatin1String (s : string) : QString :=
  map N_of_ascii (list_ascii_of_string s).

Definition QLatin1Char (c : ascii) : QChar := N_of_ascii c.

Definition Null : QChar := 0%N.

Definition size (s : QString) : Z := Z.of_nat (length s).

Definition isEmpty {A : Type} (s : list A) : bool :=
  match s with
  | [] => true
  | _ :: _ => false
  end.

(** [s.startsWith(prefix)] *)
Fixpoint startsWith (s prefix : QString) {struct prefix} : bool :=
  match prefix, s with
  | [], _ => true
  | _ :: _, [] => false
  | p :: prefix', c :: s' => N.eqb c p && startsWith s' prefix'
  end.

(** Position of the first occurrence of [needle] in [s]. *)
Fixpoint find (needle s : QString) : option nat :=
  if startsWith s needle then Some 0%nat
  else match s with
       | [] => None
       | _ :: s' => option_map S (find needle s')
       end.

(** [s.indexOf(needle, from)]: a negative [from] counts from the end; the
    runner only ever passes [from >= 0]. *)
Definition indexOf (s needle : QString) (from : Z) : Z :=
  let l := size s in
  let from := if from <? 0 then from + l else from in
  if (from <? 0) || (l <? size needle + from) then -1
  else match find needle (skipn (Z.to_nat from) s) with
       | Some i => from + Z.of_nat i
       | None => -1
       end.

(** [s.left(n)]: the whole string when [n] is negative or not below the size. *)
Definition left (s : QString) (n : Z) : QString :=
  if (n <? 0) || (size s <=? n) then s else firstn (Z.to_nat n) s.

(** [s.mid(position, n)]; [n = -1] is the default argument "to the end". *)
Definition mid (s : QString) (position n : Z) : QString :=
  let sz := size s in
  if sz <? position then []
  else if position <? 0 then
         if (n <? 0) || (sz <=? n + position) then s
         else if n + position <=? 0 then []
              else firstn (Z.to_nat (n + position)) s
       else
         let n' := if (n <? 0) || (sz - position <? n) then sz - position else n in
         firstn (Z.to_nat n') (skipn (Z.to_nat position) s).

(** [s.remove(0, len)] *)
Definition remove0 (s : QString) (len : Z) : QString := skipn (Z.to_nat len) s.

(** [s.toInt()] in base 10: surrounding white space is skipped, one sign is
    allowed, every remaining unit must be a decimal digit and the value must
    fit a 32-bit [int]; the result is [0] when the conversion fails.
    [isSpace] is [QChar::isSpace]: the control characters U+0009 to U+000D,
    the space, U+0085, U+00A0 and the separators U+1680, U+2000 to U+200A,
    U+2028, U+2029, U+202F, U+205F and U+3000.  A minus sign is U+002D or
    U+2212. *)
Definition isSpace (c : QChar) : bool :=
  ((9 <=? c) && (c <=? 13))%N || N.eqb c 32 || N.eqb c 133 || N.eqb c 160
  || N.eqb c 5760 || ((8192 <=? c) && (c <=? 8202))%N
  || N.eqb c 8232 || N.eqb c 8233 || N.eqb c 8239 || N.eqb c 8287
  || N.eqb c 12288.

Definition isMinus (c : QChar) : bool := N.eqb c 45 || N.eqb c 8722.

Definition isDigit (c : QChar) : bool := ((48 <=? c) && (c <=? 57))%N.

Fixpoint skipSpaces (s : QString) : QString :=
  match s with
  | c :: s' => if isSpace c then skipSpaces s' else s
  | [] => []
  end.

Definition trimmed (s : QString) : QString :=
  rev (skipSpaces (rev (skipSpaces s))).

Fixpoint digitsValue (acc : Z) (s : QString) : option Z :=
  match s with
  | [] => Some acc
  | c :: s' =>
      if isDigit c then digitsValue (10 * acc + (Z.of_N c - 48)) s' else None
  end.

Definition unsignedValue (s : QString) : option Z :=
  match s with
  | [] => None
  | _ :: _ => digitsValue 0 s
  end.

Definition toInt (s : QString) : Z :=
  let t := trimmed s in
  let v := match t with
           | c :: t' =>
               if isMinus c then option_map Z.opp (unsignedValue t')
               else if N.eqb c 43 then unsignedValue t'
                    else unsignedValue t
           | [] => None
           end in
  match v with
  | Some z => if (-2147483648 <=? z) && (z <=? 2147483647) then z else 0
  | None => 0
  end.

End Qt.

Import Qt.

(** ** Search results and the future they are reported through *)

(** [Utils::FileSearchResult] *)
Record FileSearchResult := mkFileSearchResult {
  fileName : QString;
  lineNumber : Z;
  matchingLine : QString;
  matchStart : Z;
  matchLength : Z
}.

Definition FileSearchResultList := list FileSearchResult.

(** The colour escape sequences of [processLine]. *)
Definition ESC : QChar := 27%N.
Definition boldRed : QString := ESC :: QLatin1String "[1;31m".
Definition resetColor : QString := ESC :: QLatin1String "[m".

(** The splicing loop of [processLine].  Every iteration that continues
    removes both markers from [text], so [S (length text)] iterations always
    reach one of the two [break]s (see [scanMatches_fuel]). *)
Fixpoint scanMatches (fuel : nat) (text : QString) (matches : list (Z * Z))
  : QString * list (Z * Z) :=
  match fuel with
  | O => (text, matches)
  | S fuel' =>
      let matchStart := indexOf text boldRed 0 in
      if matchStart =? -1 then (text, matches)
      else
        let matchTextStart := matchStart + size boldRed in
        let matchEnd := indexOf text resetColor matchTextStart in
        (* QTC_ASSERT(matchEnd != -1, break) *)
        if matchEnd =? -1 then (text, matches)
        else
          let matchLength := matchEnd - matchTextStart in
          scanMatches fuel'
            (left text matchStart ++ mid text matchTextStart matchLength
               ++ mid text (matchEnd + size resetColor) (-1))
            (matches ++ [(matchStart, matchLength)])
  end.

(** The three fields [processLine] cuts a line into. *)
Definition rawFilePath (line : QString) : QString :=
  left line (indexOf line [Null] 0).

Definition lineNumberField (line : QString) : QString :=
  let lineSeparator := indexOf line [Null] 0 in
  let textSeparator := indexOf line [Null] (lineSeparator + 1) in
  mid line (lineSeparator + 1) (textSeparator - lineSeparator - 1).

Definition rawText (line : QString) : QString :=
  let lineSeparator := indexOf line [Null] 0 in
  let textSeparator := indexOf line [Null] (lineSeparator + 1) in
  mid line (textSeparator + 1) (-1).

(** The local [filePath] of [processLine] once the prefix is removed. *)
Definition strippedFilePath (m_ref line : QString) : QString :=
  let filePath := rawFilePath line in
  if negb (isEmpty m_ref) && startsWith filePath m_ref
  then remove0 filePath (size m_ref)
  else filePath.

(** [GitGrepRunner::processLine]: the results appended to [resultList]. *)
Definition processLine (m_directory m_ref : QString) (line : QString)
           (resultList : FileSearchResultList) : FileSearchResultList :=
  if isEmpty line then resultList
  else
    let filePath := strippedFilePath m_ref line in
    let single_fileName := m_directory ++ QLatin1Char "/" :: filePath in
    let single_lineNumber := toInt (lineNumberField line) in
    let '(text, matches) :=
      scanMatches (S (length (rawText line))) (rawText line) [] in
    resultList ++
      map (fun match_ : Z * Z =>
             mkFileSearchResult single_fileName single_lineNumber text
                                (fst match_) (snd match_))
          matches.

(** ** The future interface

    [QFutureInterface<FileSearchResultList>] is shared with the observer of
    the search, who may call [cancel()] while the runner works.  Every access
    to the shared state is serialised by the interface's mutex, so one run is
    determined by the number of accesses of the runner that still precede the
    observer's [cancel()]: [cancelRequest]. *)
Record FutureInterface := mkFutureInterface {
  canceled : bool;
  finished : bool;
  results : list FileSearchResultList;
  cancelRequest : option nat
}.

Definition observe (fi : FutureInterface) : FutureInterface :=
  match cancelRequest fi with
  | None => fi
  | Some O => mkFutureInterface true (finished fi) (results fi) None
  | Some (S k) =>
      mkFutureInterface (canceled fi) (finished fi) (results fi) (Some k)
  end.

Definition isCanceled (fi : FutureInterface) : bool * FutureInterface :=
  let fi' := observe fi in (canceled fi', fi').

(** [reportResult] returns at once in the [Canceled] or [Finished] state. *)
Definition reportResult (fi : FutureInterface) (result : FileSearchResultList)
  : FutureInterface :=
  let fi' := observe fi in
  if canceled fi' || finished fi' then fi'
  else mkFutureInterface (canceled fi') (finished fi')
                         (results fi' ++ [result]) (cancelRequest fi').

Definition reportCanceled (fi : FutureInterface) : FutureInterface :=
  mkFutureInterface true (finished fi) (results fi) (cancelRequest fi).

Definition reportFinished (fi : FutureInterface) : FutureInterface :=
  mkFutureInterface (canceled fi) true (results fi) (cancelRequest fi).

(** A future nobody has canceled and nobody will. *)
Definition freshFuture : FutureInterface := mkFutureInterface false false [] None.

(** All records published so far, in order. *)
Definition publishedRecords (fi : FutureInterface) : FileSearchResultList :=
  concat (results fi).

(** ** Reading one chunk *)

Definition LF : QChar := 10%N.
Definition CR : QChar := 13%N.

(** [QTextStream] over a string is the unread rest of the string. *)
Definition atEnd (stream : QString) : bool := isEmpty stream.

(** [stream.readLine()]: the units up to the next line feed, or to the end of
    the data; the line feed is consumed, and so is a carriage return that
    stands directly before it or at the end of the data. *)
Fixpoint readLine (stream : QString) : QString * QString :=
  match stream with
  | [] => ([], [])
  | ch :: rest =>
      if N.eqb ch LF then ([], rest)
      else
        match rest with
        | [] => if N.eqb ch CR then ([], []) else ([ch], [])
        | ch' :: rest' =>
            if N.eqb ch CR && N.eqb ch' LF then ([], rest')
            else let '(line, stream') := readLine rest in (ch :: line, stream')
        end
  end.

(** [FileFindParameters], with [additionalParameters.toString()] and
    [extensionParameters.value<GitGrepParameters>()] already taken. *)
Record GitGrepParameters := mkGitGrepParameters {
  ref : QString;
  isEnabled : bool
}.

Record FileFindParameters := mkFileFindParameters {
  text : QString;
  flags : Z;
  nameFilters : QStringList;
  additionalParameters : QString;
  extensionParameters : GitGrepParameters
}.

Record GitGrepRunner := mkGitGrepRunner {
  m_fi : FutureInterface;
  m_directory : QString;
  m_ref : QString;
  m_parameters : FileFindParameters
}.

Definition set_m_fi (r : GitGrepRunner) (fi : FutureInterface) : GitGrepRunner :=
  mkGitGrepRunner fi (m_directory r) (m_ref r) (m_parameters r).

Definition set_m_ref (r : GitGrepRunner) (s : QString) : GitGrepRunner :=
  mkGitGrepRunner (m_fi r) (m_directory r) s (m_parameters r).

(** The [while] loop of [read].  [readLine] consumes at least one unit of a
    stream that is not at its end, so [length stream] iterations reach the
    end (see [readLoop_fuel]). *)
Fixpoint readLoop (fuel : nat) (dir rf : QString) (stream : QString)
         (fi : FutureInterface) (resultList : FileSearchResultList)
  : FutureInterface * FileSearchResultList :=
  match fuel with
  | O => (fi, resultList)
  | S fuel' =>
      if atEnd stream then (fi, resultList)
      else
        let '(c, fi') := isCanceled fi in
        if c then (fi', resultList)
        else
          let '(line, stream') := readLine stream in
          readLoop fuel' dir rf stream' fi' (processLine dir rf line resultList)
  end.

(** [GitGrepRunner::read] *)
Definition read (r : GitGrepRunner) (text : QString) : GitGrepRunner :=
  let '(fi, resultList) :=
    readLoop (length text) (m_directory r) (m_ref r) text (m_fi r) [] in
  if negb (isEmpty resultList)
  then set_m_fi r (reportResult fi resultList)
  else set_m_fi r fi.

(** ** Running the command *)

(** [SynchronousProcessResponse::Result] *)
Inductive Result :=
| Finished | FinishedError | TerminatedAbnormally | StartFailed | Hang.

Section Exec.

(** The [FindFlag] bits ([coreplugin/find/textfindconstants.h]). *)
Variables FindCaseSensitively FindWholeWords FindRegularExpression : Z.

(** [VcsCommand::runCommand] in a directory with arguments: the texts the
    [stdOutText] signal delivers, in order, and the response's result.  (A
    cancellation forwarded to the command shows in what the process still
    delivers and in its result.) *)
Variable runCommand : QString -> QStringList -> list QString * Result.

Definition testFlag (fl flag : Z) : bool := negb (Z.land fl flag =? 0).

(** The [arguments] list [exec] builds. *)
Definition arguments (parameters : FileFindParameters) : QStringList :=
  let arguments :=
    [QLatin1String "-c"; QLatin1String "color.grep.match=bold red";
     QLatin1String "grep"; QLatin1String "-zn"; QLatin1String "--color=always"] in
  let arguments :=
    if negb (testFlag (flags parameters) FindCaseSensitively)
    then arguments ++ [QLatin1String "-i"] else arguments in
  let arguments :=
    if testFlag (flags parameters) FindWholeWords
    then arguments ++ [QLatin1String "-w"] else arguments in
  let arguments :=
    if testFlag (flags parameters) FindRegularExpression
    then arguments ++ [QLatin1String "-P"]
    else arguments ++ [QLatin1String "-F"] in
  let arguments := arguments ++ [text parameters] in
  let params := extensionParameters parameters in
  let arguments :=
    if negb (isEmpty (ref params)) then arguments ++ [ref params]
    else arguments in
  arguments ++ [QLatin1String "--"] ++ nameFilters parameters.

(** What the process does for the given parameters. *)
Definition response (parameters : FileFindParameters) : list QString * Result :=
  runCommand (additionalParameters parameters) (arguments parameters).

(** The switches of the query, read off the find flags. *)
Definition caseSensitive (parameters : FileFindParameters) : bool :=
  testFlag (flags parameters) FindCaseSensitively.

Definition wholeWord (parameters : FileFindParameters) : bool :=
  testFlag (flags parameters) FindWholeWords.

Definition isRegex (parameters : FileFindParameters) : bool :=
  testFlag (flags parameters) FindRegularExpression.

(** [GitGrepRunner::exec] *)
Definition exec (r : GitGrepRunner) : GitGrepRunner :=
  let params := extensionParameters (m_parameters r) in
  let r :=
    if negb (isEmpty (ref params))
    then set_m_ref r (ref params ++ [QLatin1Char ":"])
    else r in
  let '(stdOutText, resp) :=
    runCommand (m_directory r) (arguments (m_parameters r)) in
  let r := fold_left read stdOutText r in
  match resp with
  | TerminatedAbnormally | StartFailed | Hang =>
      set_m_fi r (reportCanceled (m_fi r))
  | Finished | FinishedError =>
      (* When no results are found, git-grep exits with non-zero status.
         Do not consider this as an error. *)
      r
  end.

(** [GitGrepRunner::run]: the constructor, then [exec]. *)
Definition run (fi : FutureInterface) (parameters : FileFindParameters)
  : FutureInterface :=
  let runner :=
    mkGitGrepRunner fi (additionalParameters parameters) [] parameters in
  m_fi (exec runner).

(** Modelled from the spec: [Utils::runAsync] (utils/runextensions.h is not
    among the sources) runs the function on the handle's future and ends the
    handle when the function returns. *)
Definition executeSearch (fi : FutureInterface) (parameters : FileFindParameters)
  : FutureInterface :=
  reportFinished (run fi parameters).

End Exec.

(** Modelled from the spec: the [ProcessOutcome] of a handle that has ended,
    read off the state of its future; the future has no state for an error. *)
Inductive ProcessOutcome :=
| Completed
| Canceled
| Failed (reason : QString).

Definition outcome (fi : FutureInterface) : option ProcessOutcome :=
  if negb (finished fi) then None
  else if canceled fi then Some Canceled else Some Completed.

(** ** Opening a result at its revision *)

Record SearchResultItem := mkSearchResultItem {
  path : QStringList;
  item_lineNumber : Z;
  textMarkPos : Z
}.

(** The editor [EditorManager::openEditorWithContents] creates, with what
    [openEditor] does to it afterwards. *)
Record IEditor := mkIEditor {
  title : QString;
  contents : QByteArray;
  gotoLine : Z * Z;
  temporary : bool
}.

Section OpenEditor.

Variable fromNativeSeparators : QString -> QString.
(** [QDir(topLevel).relativeFilePath(path)] *)
Variable relativeFilePath : QString -> QString -> QString.
(** [GitClient::synchronousShow(workingDirectory, id, &content)]: the content
    when the call succeeds. *)
Variable synchronousShow : QString -> QString -> option QByteArray.
(** [TextFileFormat::readFileUTF8(path, ...)]: the file's bytes when the
    result is [ReadSuccess]. *)
Variable readFileUTF8 : QString -> option QByteArray.
(** [tr("Git Show %1:%2").arg(ref).arg(relativePath)] *)
Variable gitShowTitle : QString -> QString -> QString.

Definition byteArray_eqb (a b : QByteArray) : bool :=
  if list_eq_dec Byte.byte_eq_dec a b then true else false.

(** The revision's content as [openEditor] asks for it. *)
Definition revisionContent (parameters : FileFindParameters) (first : QString)
  : option QByteArray :=
  let topLevel := additionalParameters parameters in
  synchronousShow topLevel
    (ref (extensionParameters parameters) ++ QLatin1String ":./"
       ++ relativeFilePath topLevel (fromNativeSeparators first)).

(** [GitGrep::openEditor]; [None] is the [nullptr] result. *)
Definition openEditor (item : SearchResultItem) (parameters : FileFindParameters)
  : option IEditor :=
  let params := extensionParameters parameters in
  match path item with
  | [] => None
  | first :: _ =>
      if negb (isEnabled params) || isEmpty (ref params) then None
      else
        let path := fromNativeSeparators first in
        let topLevel := additionalParameters parameters in
        let relativePath := relativeFilePath topLevel path in
        match synchronousShow topLevel
                (ref params ++ QLatin1String ":./" ++ relativePath) with
        | None => None
        | Some content =>
            if isEmpty content then None
            else
              let same :=
                match readFileUTF8 path with
                | Some fileContent => byteArray_eqb fileContent content
                | None => false
                end in
              if same then None (* open the file for read/write *)
              else
                let title := gitShowTitle (ref params) relativePath in
                Some (mkIEditor title content
                        (item_lineNumber item, textMarkPos item) true)
        end
  end.

End OpenEditor.

(** ** Well-formed highlighted text *)

Definition NUL : QString := [Null].

(** A highlighted span paired with the plain text that follows it. *)
Definition Segment := (QString * QString)%type.

(** Segments as the tool writes them: each span between the two markers. *)
Fixpoint highlight (segs : list Segment) : QString :=
  match segs with
  | [] => []
  | (m, p) :: segs' => boldRed ++ m ++ resetColor ++ p ++ highlight segs'
  end.

(** The same segments without the markers. *)
Fixpoint plainText (segs : list Segment) : QString :=
  match segs with
  | [] => []
  | (m, p) :: segs' => m ++ p ++ plainText segs'
  end.

(** Offset and length of every span in the text without markers, when the
    first segment starts at [offset]. *)
Fixpoint spans (offset : Z) (segs : list Segment) : list (Z * Z) :=
  match segs with
  | [] => []
  | (m, p) :: segs' => (offset, size m) :: spans (offset + size m + size p) segs'
  end.

Definition contains (needle s : QString) : Prop :=
  exists a b, s = a ++ needle ++ b.

Definition markerFree (s : QString) : Prop :=
  ~ contains boldRed s /\ ~ contains resetColor s.

(** What may follow the paired markers of a line: nothing, or a start marker
    that no end marker follows. *)
Definition unmatchedTail (tail : QString) : Prop :=
  tail = [] \/ exists t, tail = boldRed ++ t /\ ~ contains resetColor t.

(** Spans of one line never overlap and come in the order of the line. *)
Definition precedes (a b : FileSearchResult) : Prop :=
  matchStart a + matchLength a <= matchStart b.

(** The record [processLine] builds for one match of a line. *)
Definition recordOf (m_directory m_ref line lineText : QString) (span : Z * Z)
  : FileSearchResult :=
  mkFileSearchResult (m_directory ++ QLatin1Char "/" :: strippedFilePath m_ref line)
                     (toInt (lineNumberField line)) lineText
                     (fst span) (snd span).

(** The records one chunk yields when nobody cancels. *)
Definition chunkRecords (m_directory m_ref text : QString) : FileSearchResultList :=
  snd (readLoop (length text) m_directory m_ref text freshFuture []).

(** A chunk that ends where a line ends. *)
Definition lineAligned (chunk : QString) : Prop := last chunk LF = LF.

(** A needle whose first unit does not occur again in it cannot overlap a
    copy of itself: both markers are of this kind. *)
Definition unbordered (p : QString) : Prop :=
  match p with
  | [] => False
  | c :: p' => ~ In c p'
  end.

(** Nobody has canceled and nobody will. *)
Definition quiet (fi : FutureInterface) : Prop :=
  canceled fi = false /\ cancelRequest fi = None.

(** ** Example inputs *)

Definition header : QString :=
  QLatin1String "a.txt" ++ NUL ++ QLatin1String "10" ++ NUL.

(** [a.txt<NUL>10<NUL>foo <start>BAR<end> baz] *)
Definition scenarioLine : QString :=
  header ++ QLatin1String "foo " ++ boldRed ++ QLatin1String "BAR" ++ resetColor
         ++ QLatin1String " baz".

(** A pair of markers, then a start marker without its end marker. *)
Definition unmatchedLine : QString :=
  header ++ boldRed ++ QLatin1String "x" ++ resetColor ++ QLatin1String " "
         ++ boldRed ++ QLatin1String "y".

(** One pair of markers; splicing it out joins the units around it into a
    new pair. *)
Definition junctionLine : QString :=
  header ++ (ESC :: QLatin1String "[1;") ++ boldRed
         ++ (QLatin1String "31mxy" ++ ESC :: QLatin1String "[") ++ resetColor
         ++ QLatin1String "m".

(** An end marker before the only pair. *)
Definition strayEndLine : QString :=
  header ++ QLatin1String "x" ++ resetColor ++ boldRed ++ QLatin1String "y"
         ++ resetColor.

(** Two pairs of markers with nothing between the markers of each. *)
Definition emptySpansLine : QString :=
  header ++ highlight [([], []); ([], [])].

Definition twoSpansSegments : list Segment :=
  [(QLatin1String "b", QLatin1String "c"); (QLatin1String "d", [])].

Definition twoSpansLine : QString :=
  header ++ QLatin1String "a" ++ highlight twoSpansSegments.

Definition scenarioSegments : list Segment :=
  [(QLatin1String "BAR", QLatin1String " baz")].

Definition scenarioRecord : FileSearchResult :=
  mkFileSearchResult (QLatin1String "/repo/a.txt") 10
                     (QLatin1String "foo BAR baz") 4 3.

Definition scenarioChunks : list QString :=
  [scenarioLine ++ [LF]; twoSpansLine ++ [LF]; scenarioLine].

(** The scenario line, cut inside its highlighted span. *)
Definition cutChunks : list QString :=
  [header ++ QLatin1String "foo " ++ boldRed ++ QLatin1String "BA";
   QLatin1String "R" ++ resetColor ++ QLatin1String " baz" ++ [LF]].

Definition noParameters : FileFindParameters :=
  mkFileFindParameters [] 0 [] [] (mkGitGrepParameters [] false).

Definition runnerOn (fi : FutureInterface) : GitGrepRunner :=
  mkGitGrepRunner fi (QLatin1String "/repo") [] noParameters.

(** A future whose observer cancels after the runner's next access. *)
Definition cancelSoon : FutureInterface := mkFutureInterface false false [] (Some 1%nat).

(** A process that prints nothing and ends with the given result. *)
Definition silentProcess (resp : Result) : QString -> QStringList -> list QString * Result :=
  fun _ _ => ([], resp).

(** A process that prints the given chunks and ends with the given result. *)
Definition printingProcess (chunks : list QString) (resp : Result)
  : QString -> QStringList -> list QString * Result :=
  fun _ _ => (chunks, resp).

Definition mainParameters : FileFindParameters :=
  mkFileFindParameters (QLatin1String "BAR") 2 [] (QLatin1String "/repo")
                       (mkGitGrepParameters (QLatin1String "main") true).

Definition mainLine : QString :=
  QLatin1String "main:src/a.txt" ++ NUL ++ QLatin1String "10" ++ NUL
    ++ QLatin1String "foo " ++ boldRed ++ QLatin1String "BAR" ++ resetColor
    ++ QLatin1String " baz".

Definition mainRunner : GitGrepRunner :=
  mkGitGrepRunner freshFuture (QLatin1String "/repo") [] mainParameters.

Definition mainItem : SearchResultItem :=
  mkSearchResultItem [QLatin1String "/repo/src/a.txt"] 10 4.

Definition sameSeparators : QString -> QString := fun p => p.

(** Paths below "/repo/" made relative to it. *)
Definition belowRepo : QString -> QString -> QString :=
  fun _ p => skipn 6 p.

Definition plainTitle : QString -> QString -> QString :=
  fun rf p => QLatin1String "Git Show " ++ rf ++ QLatin1Char ":" :: p.

Definition oldBytes : QByteArray := [x66; x6f; x6f]%byte.

Definition newBytes : QByteArray := [x62; x61; x72]%byte.

(** ** The Git Grep extension of the find dialog and its settings *)

(** [QVariant], as far as the two settings of the extension go. *)
Inductive QVariant :=
| Invalid
| VBool (b : bool)
| VString (s : QString).

Fixpoint QString_eqb (a b : QString) : bool :=
  match a, b with
  | [], [] => true
  | c :: a', d :: b' => N.eqb c d && QString_eqb a' b'
  | _, _ => false
  end.

(** Lower case of the letters A to Z; no other code unit has a lower case
    among the units of "false". *)
Definition toLowerAscii (c : QChar) : QChar :=
  if ((65 <=? c) && (c <=? 90))%N then (c + 32)%N else c.

(** [v.toBool()]: a string is true unless its lower case is empty, "0" or
    "false"; an invalid variant is false. *)
Definition toBool (v : QVariant) : bool :=
  match v with
  | Invalid => false
  | VBool b => b
  | VString s =>
      let lower := map toLowerAscii s in
      negb (isEmpty lower || QString_eqb lower (QLatin1String "0")
            || QString_eqb lower (QLatin1String "false"))
  end.

(** [v.toString()]: an invalid variant gives the empty string. *)
Definition toString (v : QVariant) : QString :=
  match v with
  | Invalid => []
  | VBool true => QLatin1String "true"
  | VBool false => QLatin1String "false"
  | VString s => s
  end.

(** [QSettings]: the entries, the latest first. *)
Definition QSettings := list (QString * QVariant).

(** [settings->value(key, defaultValue)] *)
Fixpoint value (settings : QSettings) (key : QString) (defaultValue : QVariant)
  : QVariant :=
  match settings with
  | [] => defaultValue
  | (k, v) :: settings' =>
      if QString_eqb k key then v else value settings' key defaultValue
  end.

(** [settings->setValue(key, v)] *)
Definition setValue (settings : QSettings) (key : QString) (v : QVariant)
  : QSettings :=
  (key, v) :: settings.

Definition EnableGitGrep : QString := QLatin1String "EnableGitGrep".
Definition GitGrepRef : QString := QLatin1String "GitGrepRef".

(** The widgets of [GitGrep], by what the class reads and writes of them:
    [m_widget->isEnabled()], [m_enabledCheckBox->isChecked()] and
    [m_treeLineEdit->text()]. *)
Record GitGrep := mkGitGrep {
  m_widget : bool;
  m_enabledCheckBox : bool;
  m_treeLineEdit : QString
}.

(** The default [maxLength] of a line edit. *)
Definition maxLength : nat := Z.to_nat 32767.

(** [lineEdit->setText(text)]: the text is cut at [maxLength]; the validator
    only restricts what the user types. *)
Definition setText (text : QString) : QString := firstn maxLength text.

(** The slot connected to [FindInFiles::pathChanged], with the result of
    [validateDirectory(path)]. *)
Definition pathChanged (g : GitGrep) (valid : bool) : GitGrep :=
  mkGitGrep valid (m_enabledCheckBox g) (m_treeLineEdit g).

(** [GitGrep::isEnabled() const] *)
Definition GitGrep_isEnabled (g : GitGrep) : bool :=
  m_widget g && m_enabledCheckBox g.

(** [GitGrep::isEnabled(const FileFindParameters &) const] *)
Definition GitGrep_isEnabledFor (parameters : FileFindParameters) : bool :=
  isEnabled (extensionParameters parameters).

(** [GitGrep::parameters] *)
Definition parameters (g : GitGrep) : GitGrepParameters :=
  mkGitGrepParameters (m_treeLineEdit g) (GitGrep_isEnabled g).

(** [GitGrep::readSettings] *)
Definition readSettings (g : GitGrep) (settings : QSettings) : GitGrep :=
  mkGitGrep (m_widget g)
            (toBool (value settings EnableGitGrep (VBool false)))
            (setText (toString (value settings GitGrepRef Invalid))).

(** [GitGrep::writeSettings] *)
Definition writeSettings (g : GitGrep) (settings : QSettings) : QSettings :=
  let settings := setValue settings EnableGitGrep (VBool (m_enabledCheckBox g)) in
  setValue settings GitGrepRef (VString (m_treeLineEdit g)).

Definition mainWidget : GitGrep := mkGitGrep true true (QLatin1String "main").

(** A line of the tool without a highlighted match. *)
Definition plainLine : QString := header ++ QLatin1String "no match here".

(** A future that was canceled before the search starts. *)
Definition canceledFuture : FutureInterface := mkFutureInterface true false [] None.

(** The editor on the revision "main" of "src/a.txt" with [oldBytes]. *)
Definition revisionEditor : IEditor :=
  mkIEditor (plainTitle (QLatin1String "main") (QLatin1String "src/a.txt"))
            oldBytes (10, 4) true.

Definition otherSettings : QSettings :=
  [(QLatin1String "Other", VString (QLatin1String "x"))].

(** ** Test tree items (src/plugins/autotest/testtreeitem.cpp) *)

(** [TestTreeItem::Type] *)
Inductive ItemType :=
| Root | TestClass | TestFunction | TestDataTag | TestDataFunction
| TestSpecialFunction | GTestCase | GTestCaseParameterized | GTestName.

(** [Qt::CheckState] *)
Inductive CheckState := Unchecked | PartiallyChecked | Checked.

Definition ItemType_eqb (a b : ItemType) : bool :=
  match a, b with
  | Root, Root | TestClass, TestClass | TestFunction, TestFunction
  | TestDataTag, TestDataTag | TestDataFunction, TestDataFunction
  | TestSpecialFunction, TestSpecialFunction | GTestCase, GTestCase
  | GTestCaseParameterized, GTestCaseParameterized | GTestName, GTestName => true
  | _, _ => false
  end.

Definition CheckState_eqb (a b : CheckState) : bool :=
  match a, b with
  | Unchecked, Unchecked | PartiallyChecked, PartiallyChecked
  | Checked, Checked => true
  | _, _ => false
  end.

(** The members of a [TestTreeItem]; [m_state] is the value of the state
    flags. *)
Record ItemData := mkItemData {
  m_name : QString;
  m_filePath : QString;
  m_checked : CheckState;
  m_type : ItemType;
  m_line : N;
  m_column : N;
  m_mainFile : QString;
  m_referencingFile : QString;
  m_state : N;
  m_markedForRemoval : bool
}.

(** An item with the items below it. *)
#[warnings="-register-all"]
Inductive TestTreeItem := Item (d : ItemData) (children : list TestTreeItem).

Definition itemData (item : TestTreeItem) : ItemData :=
  let 'Item d _ := item in d.

Definition childItems (item : TestTreeItem) : list TestTreeItem :=
  let 'Item _ children := item in children.

Definition set_m_filePath (d : ItemData) (v : QString) : ItemData :=
  mkItemData (m_name d) v (m_checked d) (m_type d) (m_line d) (m_column d)
             (m_mainFile d) (m_referencingFile d) (m_state d) (m_markedForRemoval d).

Definition set_m_name (d : ItemData) (v : QString) : ItemData :=
  mkItemData v (m_filePath d) (m_checked d) (m_type d) (m_line d) (m_column d)
             (m_mainFile d) (m_referencingFile d) (m_state d) (m_markedForRemoval d).

Definition set_m_checked (d : ItemData) (v : CheckState) : ItemData :=
  mkItemData (m_name d) (m_filePath d) v (m_type d) (m_line d) (m_column d)
             (m_mainFile d) (m_referencingFile d) (m_state d) (m_markedForRemoval d).

Definition set_m_type (d : ItemData) (v : ItemType) : ItemData :=
  mkItemData (m_name d) (m_filePath d) (m_checked d) v (m_line d) (m_column d)
             (m_mainFile d) (m_referencingFile d) (m_state d) (m_markedForRemoval d).

Definition set_m_line (d : ItemData) (v : N) : ItemData :=
  mkItemData (m_name d) (m_filePath d) (m_checked d) (m_type d) v (m_column d)
             (m_mainFile d) (m_referencingFile d) (m_state d) (m_markedForRemoval d).

Definition set_m_mainFile (d : ItemData) (v : QString) : ItemData :=
  mkItemData (m_name d) (m_filePath d) (m_checked d) (m_type d) (m_line d)
             (m_column d) v (m_referencingFile d) (m_state d)
             (m_markedForRemoval d).

Definition set_m_referencingFile (d : ItemData) (v : QString) : ItemData :=
  mkItemData (m_name d) (m_filePath d) (m_checked d) (m_type d) (m_line d)
             (m_column d) (m_mainFile d) v (m_state d) (m_markedForRemoval d).

Definition set_m_state (d : ItemData) (v : N) : ItemData :=
  mkItemData (m_name d) (m_filePath d) (m_checked d) (m_type d) (m_line d)
             (m_column d) (m_mainFile d) (m_referencingFile d) v
             (m_markedForRemoval d).

Definition set_m_markedForRemoval (d : ItemData) (v : bool) : ItemData :=
  mkItemData (m_name d) (m_filePath d) (m_checked d) (m_type d) (m_line d)
             (m_column d) (m_mainFile d) (m_referencingFile d) (m_state d) v.

(** [TestTreeItem::modifyContent]: the result and the members afterwards. *)
Definition modifyContent (this modified : ItemData) : bool * ItemData :=
  let hasBeenModified := false in
  let '(this, hasBeenModified) :=
    if negb (QString_eqb (m_filePath this) (m_filePath modified))
    then (set_m_filePath this (m_filePath modified), true)
    else (this, hasBeenModified) in
  let '(this, hasBeenModified) :=
    if negb (QString_eqb (m_name this) (m_name modified))
    then (set_m_name this (m_name modified), true)
    else (this, hasBeenModified) in
  let '(this, hasBeenModified) :=
    if negb (N.eqb (m_line this) (m_line modified))
    then (set_m_line this (m_line modified), true)
    else (this, hasBeenModified) in
  let '(this, hasBeenModified) :=
    if negb (QString_eqb (m_mainFile this) (m_mainFile modified))
    then (set_m_mainFile this (m_mainFile modified), true)
    else (this, hasBeenModified) in
  let '(this, hasBeenModified) :=
    if negb (QString_eqb (m_referencingFile this) (m_referencingFile modified))
    then (set_m_referencingFile this (m_referencingFile modified), true)
    else (this, hasBeenModified) in
  let '(this, hasBeenModified) :=
    if negb (ItemType_eqb (m_type this) (m_type modified))
    then (set_m_type this (m_type modified), true)
    else (this, hasBeenModified) in
  let '(this, hasBeenModified) :=
    if negb (N.eqb (m_state this) (m_state modified))
    then (set_m_state this (m_state modified), true)
    else (this, hasBeenModified) in
  let this :=
    if negb (Bool.eqb (m_markedForRemoval this) (m_markedForRemoval modified))
    then set_m_markedForRemoval this (m_markedForRemoval modified)
    else this in
  (hasBeenModified, this).

(** [TestTreeItem::checked] of an item whose parent item, if it has one,
    holds [parent]. *)
Definition checked (parent : option ItemData) (d : ItemData) : CheckState :=
  match m_type d with
  | TestClass | TestFunction | GTestCase | GTestCaseParameterized | GTestName =>
      m_checked d
  | TestDataFunction | TestSpecialFunction => Unchecked
  | _ =>
      match parent with
      | Some p => m_checked p
      | None => Unchecked
      end
  end.

(** The loop of [revalidateCheckState] over the rows that are left: the
    state to assign. *)
Fixpoint revalidateRows (this : ItemData) (rows : list TestTreeItem)
         (foundChecked foundUnchecked : bool) : CheckState :=
  match rows with
  | [] => if foundUnchecked then Unchecked else Checked
  | child :: rows' =>
      match m_type (itemData child) with
      | TestDataFunction | TestSpecialFunction =>
          revalidateRows this rows' foundChecked foundUnchecked
      | _ =>
          let state := checked (Some this) (itemData child) in
          let foundChecked := foundChecked || negb (CheckState_eqb state Unchecked) in
          let foundUnchecked := foundUnchecked || CheckState_eqb state Unchecked in
          if foundChecked && foundUnchecked then PartiallyChecked
          else revalidateRows this rows' foundChecked foundUnchecked
      end
  end.

(** [TestTreeItem::revalidateCheckState] *)
Definition revalidateCheckState (item : TestTreeItem) : TestTreeItem :=
  let 'Item d children := item in
  match children with
  | [] => item
  | _ :: _ => Item (set_m_checked d (revalidateRows d children false false)) children
  end.

Definition usedState (checkState : CheckState) : CheckState :=
  if CheckState_eqb checkState Unchecked then Unchecked else Checked.

(** The [for] loop of [setChecked] over the rows of an item with data [d]:
    [done] are the rows already set, [todo] the rows still to set.  A child
    that ends its call with [parentItem()->revalidateCheckState()] makes the
    item revalidate itself over its rows as they are then. *)
Definition setCheckedRows
           (setChecked : TestTreeItem -> CheckState -> TestTreeItem * bool)
           (state : CheckState)
  : ItemData -> list TestTreeItem -> list TestTreeItem
    -> ItemData * list TestTreeItem :=
  fix rows (d : ItemData) (done todo : list TestTreeItem) {struct todo} :=
    match todo with
    | [] => (d, done)
    | child :: todo' =>
        let '(child', revalidate) := setChecked child state in
        let d' :=
          if revalidate
          then itemData (revalidateCheckState (Item d (done ++ child' :: todo')))
          else d in
        rows d' (done ++ [child']) todo'
    end.

(** [TestTreeItem::setChecked]: the item afterwards, and whether the call
    ended with [parentItem()->revalidateCheckState()], which the caller that
    holds the parent carries out. *)
Fixpoint setChecked (item : TestTreeItem) (checkState : CheckState) {struct item}
  : TestTreeItem * bool :=
  let 'Item d children := item in
  match m_type d with
  | TestFunction | GTestName =>
      (Item (set_m_checked d (usedState checkState)) children, true)
  | TestClass | GTestCase | GTestCaseParameterized =>
      let '(d', children') :=
        setCheckedRows setChecked (usedState checkState) d [] children in
      (Item (set_m_checked d' (usedState checkState)) children', false)
  | _ => (item, false)
  end.

(** [setChecked] called on the child in row [row] of [parent]: the parent
    afterwards ([None] when there is no such row). *)
Definition setCheckedChild (parent : TestTreeItem) (row : nat)
           (checkState : CheckState) : option TestTreeItem :=
  let 'Item d children := parent in
  match nth_error children row with
  | None => None
  | Some child =>
      let '(child', revalidate) := setChecked child checkState in
      let parent' := Item d (firstn row children ++ child' :: skipn (S row) children) in
      Some (if revalidate then revalidateCheckState parent' else parent')
  end.

(** [TestTreeItem::markForRemovalRecursively] *)
Fixpoint markForRemovalRecursively (item : TestTreeItem) (mark : bool)
  : TestTreeItem :=
  let 'Item d children := item in
  Item (set_m_markedForRemoval d mark)
       (map (fun child => markForRemovalRecursively child mark) children).

(** All items of a tree, the item itself first. *)
Fixpoint allItems (item : TestTreeItem) : list ItemData :=
  let 'Item d children := item in
  d :: flat_map allItems children.

(** The children that [revalidateCheckState] looks at. *)
Definition counted (child : TestTreeItem) : bool :=
  match m_type (itemData child) with
  | TestDataFunction | TestSpecialFunction => false
  | _ => true
  end.

(** The check states [revalidateCheckState] looks at. *)
Definition countedStates (d : ItemData) (children : list TestTreeItem)
  : list CheckState :=
  map (fun child => checked (Some d) (itemData child)) (filter counted children).

(** The types whose items carry a check state of their own. *)
Definition ownsCheckState (t : ItemType) : bool :=
  match t with
  | TestClass | TestFunction | GTestCase | GTestCaseParameterized | GTestName => true
  | _ => false
  end.

Definition exampleFunction (name : string) (state : CheckState) (mark : bool)
  : TestTreeItem :=
  Item (mkItemData (QLatin1String name) (QLatin1String "/repo/tst.cpp") state
                   TestFunction 12 0 [] [] 0 mark) [].

Definition exampleClass : TestTreeItem :=
  Item (mkItemData (QLatin1String "tst_Example") (QLatin1String "/repo/tst.cpp")
                   Checked TestClass 5 0 [] [] 0 false)
       [exampleFunction "first" Checked false;
        exampleFunction "second" Unchecked true].

(** ** Searching in lists of code units *)

Section Search.

Lemma startsWith_iff (p s : QString) :
  startsWith s p = true <-> exists t, s = p ++ t.
Proof.
  revert s; induction p as [|c p IH]; intros s; simpl.
  - split; [exists s; reflexivity | reflexivity].
  - destruct s as [|d s]; simpl.
    + split; [discriminate | intros [t Ht]; discriminate].
    + rewrite andb_true_iff, N.eqb_eq, IH. split.
      * intros [-> [t ->]]. exists t; reflexivity.
      * intros [t Ht]. injection Ht as -> ->. split; [reflexivity | exists t; reflexivity].
Qed.

Lemma startsWith_contains (p s : QString) :
  startsWith s p = true -> contains p s.
Proof.
  intros H. apply startsWith_iff in H as [t ->]. exists [], t. reflexivity.
Qed.

Lemma contains_cons (p s : QString) (c : QChar) :
  contains p s -> contains p (c :: s).
Proof.
  intros (a & b & ->). exists (c :: a), b. reflexivity.
Qed.

Lemma contains_app_l (p s t : QString) : contains p s -> contains p (s ++ t).
Proof.
  intros (a & b & ->). exists a, (b ++ t). now rewrite <- !app_assoc.
Qed.

Lemma contains_app_r (p s t : QString) : contains p t -> contains p (s ++ t).
Proof.
  intros (a & b & ->). exists (s ++ a), b. now rewrite <- !app_assoc.
Qed.

Lemma find_absent (p s : QString) : ~ contains p s -> find p s = None.
Proof.
  induction s as [|c s IH]; intros H; simpl.
  - destruct (startsWith [] p) eqn:E; [|reflexivity].
    exfalso. now apply H, startsWith_contains.
  - destruct (startsWith (c :: s) p) eqn:E.
    + exfalso. now apply H, startsWith_contains.
    + rewrite IH; [reflexivity|]. intros C. now apply H, contains_cons.
Qed.

Lemma find_None (p s : QString) : find p s = None -> ~ contains p s.
Proof.
  induction s as [|c s IH]; simpl.
  - destruct (startsWith [] p) eqn:E; [discriminate|].
    intros _ (a & b & H). symmetry in H.
    apply app_eq_nil in H as [-> H]. apply app_eq_nil in H as [-> _].
    discriminate E.
  - destruct (startsWith (c :: s) p) eqn:E; [discriminate|].
    destruct (find p s) eqn:F; [discriminate|].
    intros _ (a & b & H). destruct a as [|d a].
    + assert (startsWith (c :: s) p = true)
        by (apply startsWith_iff; exists b; exact H).
      congruence.
    + injection H as -> ->. apply IH; [reflexivity|]. exists a, b. reflexivity.
Qed.

Lemma find_Some_bound (p s : QString) (i : nat) :
  find p s = Some i -> (i + length p <= length s)%nat.
Proof.
  revert i; induction s as [|c s IH]; intros i; simpl.
  - destruct (startsWith [] p) eqn:E; [|discriminate].
    intros [= <-]. apply startsWith_iff in E as [t E].
    symmetry in E. apply app_eq_nil in E as [-> _]. simpl. lia.
  - destruct (startsWith (c :: s) p) eqn:E.
    + intros [= <-]. apply startsWith_iff in E as [t E].
      apply (f_equal (@List.length _)) in E. rewrite length_app in E.
      simpl in *. lia.
    + destruct (find p s) eqn:F; [|discriminate].
      intros [= <-]. specialize (IH _ eq_refl). simpl. lia.
Qed.

Lemma boldRed_unbordered : unbordered boldRed.
Proof.
  simpl. intros H. repeat (destruct H as [H|H]; [discriminate H|]). exact H.
Qed.

Lemma resetColor_unbordered : unbordered resetColor.
Proof.
  simpl. intros H. repeat (destruct H as [H|H]; [discriminate H|]). exact H.
Qed.

Lemma startsWith_straddle (p pre rest : QString) :
  unbordered p -> startsWith (pre ++ p ++ rest) p = true ->
  pre = [] \/ startsWith pre p = true.
Proof.
  intros U H. apply startsWith_iff in H as [t H].
  destruct p as [|c0 tl]; [contradiction|]. simpl in U.
  apply app_eq_app in H as [l [[H1 H2]|[H1 H2]]].
  - right. apply startsWith_iff. exists l. exact H1.
  - destruct pre as [|d pre]; [now left|]. right.
    destruct l as [|x l].
    + rewrite app_nil_r in H1. rewrite <- H1.
      apply startsWith_iff. exists []. now rewrite app_nil_r.
    + exfalso. simpl in H1, H2. injection H1 as -> H1. injection H2 as <- H2.
      apply U. rewrite H1. apply in_or_app. right. now left.
Qed.

(** The first occurrence of an unbordered needle is the one written after a
    text it does not occur in. *)
Lemma find_first (p pre rest : QString) :
  unbordered p -> ~ contains p pre ->
  find p (pre ++ p ++ rest) = Some (length pre).
Proof.
  intros U. induction pre as [|c pre IH]; intros H.
  - simpl. destruct (p ++ rest) eqn:E; simpl;
      (replace (startsWith _ p) with true;
       [reflexivity | symmetry; apply startsWith_iff; exists rest; now rewrite E]).
  - change ((c :: pre) ++ p ++ rest) with (c :: (pre ++ p ++ rest)).
    cbn [find]. destruct (startsWith (c :: pre ++ p ++ rest) p) eqn:E.
    + exfalso. apply (startsWith_straddle p (c :: pre) rest U) in E as [E|E];
        [discriminate E|]. now apply H, startsWith_contains.
    + rewrite IH; [reflexivity|]. intros C. now apply H, contains_cons.
Qed.

Lemma size_app (a b : QString) : size (a ++ b) = size a + size b.
Proof. unfold size. rewrite length_app. lia. Qed.

Lemma size_nonneg (a : QString) : 0 <= size a.
Proof. unfold size. lia. Qed.

Lemma skipn_size_app (pre x : QString) : skipn (Z.to_nat (size pre)) (pre ++ x) = x.
Proof.
  unfold size. rewrite Nat2Z.id, skipn_app, skipn_all, Nat.sub_diag. reflexivity.
Qed.

Lemma indexOf_from (p pre x : QString) (i : nat) :
  find p x = Some i -> indexOf (pre ++ x) p (size pre) = size pre + Z.of_nat i.
Proof.
  intros F. pose proof (find_Some_bound _ _ _ F) as B.
  pose proof (size_nonneg pre) as Hp.
  assert (Bz : size p <= size x) by (unfold size; lia).
  unfold indexOf. cbv zeta. rewrite size_app.
  repeat rewrite (proj2 (Z.ltb_ge (size pre) 0)) by lia.
  rewrite (proj2 (Z.ltb_ge (size pre + size x) (size p + size pre))) by lia.
  cbn [orb]. rewrite skipn_size_app, F. reflexivity.
Qed.

Lemma indexOf_absent_from (p pre x : QString) :
  ~ contains p x -> indexOf (pre ++ x) p (size pre) = -1.
Proof.
  intros H. pose proof (size_nonneg pre) as Hp.
  unfold indexOf. cbv zeta.
  repeat rewrite (proj2 (Z.ltb_ge (size pre) 0)) by lia.
  destruct (_ || _); [reflexivity|].
  rewrite skipn_size_app, (find_absent _ _ H). reflexivity.
Qed.

Lemma indexOf_first_from (p pre m rest : QString) :
  unbordered p -> ~ contains p m ->
  indexOf (pre ++ m ++ p ++ rest) p (size pre) = size pre + size m.
Proof.
  intros U H. apply indexOf_from, find_first; assumption.
Qed.

Lemma indexOf_first (p pre rest : QString) :
  unbordered p -> ~ contains p pre ->
  indexOf (pre ++ p ++ rest) p 0 = size pre.
Proof.
  intros U H. apply (indexOf_first_from p [] pre rest U H).
Qed.

Lemma indexOf_absent (p s : QString) : ~ contains p s -> indexOf s p 0 = -1.
Proof.
  intros H. apply (indexOf_absent_from p [] s H).
Qed.

Lemma left_app (pre x : QString) : left (pre ++ x) (size pre) = pre.
Proof.
  unfold left. pose proof (size_nonneg pre) as Hp. pose proof (size_nonneg x).
  rewrite (proj2 (Z.ltb_ge (size pre) 0)) by lia. cbn [orb]. rewrite size_app.
  destruct (size pre + size x <=? size pre) eqn:E1.
  - apply Z.leb_le in E1.
    assert (length x = 0%nat) by (unfold size in *; lia).
    destruct x; [now rewrite app_nil_r | discriminate].
  - unfold size. rewrite Nat2Z.id, firstn_app, firstn_all, Nat.sub_diag.
    simpl. now rewrite app_nil_r.
Qed.

Lemma mid_app (pre m rest : QString) :
  mid (pre ++ m ++ rest) (size pre) (size m) = m.
Proof.
  unfold mid. pose proof (size_nonneg pre). pose proof (size_nonneg m).
  pose proof (size_nonneg rest). cbv zeta. rewrite !size_app.
  rewrite (proj2 (Z.ltb_ge (size pre + (size m + size rest)) (size pre))) by lia.
  rewrite (proj2 (Z.ltb_ge (size pre) 0)) by lia.
  rewrite (proj2 (Z.ltb_ge (size m) 0)) by lia. cbn [orb].
  rewrite (proj2 (Z.ltb_ge (size pre + (size m + size rest) - size pre) (size m)))
    by lia.
  rewrite skipn_size_app. unfold size.
  rewrite Nat2Z.id, firstn_app, firstn_all, Nat.sub_diag. simpl.
  now rewrite app_nil_r.
Qed.

Lemma mid_tail (pre rest : QString) : mid (pre ++ rest) (size pre) (-1) = rest.
Proof.
  unfold mid. pose proof (size_nonneg pre). pose proof (size_nonneg rest).
  cbv zeta. rewrite !size_app.
  rewrite (proj2 (Z.ltb_ge (size pre + size rest) (size pre))) by lia.
  rewrite (proj2 (Z.ltb_ge (size pre) 0)) by lia.
  change (-1 <? 0) with true. cbn [orb].
  rewrite skipn_size_app.
  replace (size pre + size rest - size pre) with (size rest) by lia.
  unfold size. rewrite Nat2Z.id. apply firstn_all.
Qed.

End Search.

(** ** The splicing loop on well-formed text *)

Section Scan.

Lemma scanMatches_S (fuel : nat) (text : QString) (matches : list (Z * Z)) :
  scanMatches (S fuel) text matches =
  let matchStart := indexOf text boldRed 0 in
  if matchStart =? -1 then (text, matches)
  else
    let matchTextStart := matchStart + size boldRed in
    let matchEnd := indexOf text resetColor matchTextStart in
    if matchEnd =? -1 then (text, matches)
    else
      let matchLength := matchEnd - matchTextStart in
      scanMatches fuel
        (left text matchStart ++ mid text matchTextStart matchLength
           ++ mid text (matchEnd + size resetColor) (-1))
        (matches ++ [(matchStart, matchLength)]).
Proof. reflexivity. Qed.

(** No start marker: the loop ends at its first [break]. *)
Lemma scanMatches_done (fuel : nat) (text : QString) (matches : list (Z * Z)) :
  ~ contains boldRed text -> scanMatches fuel text matches = (text, matches).
Proof.
  intros H. destruct fuel as [|fuel]; [reflexivity|].
  rewrite scanMatches_S. cbv zeta. rewrite (indexOf_absent _ _ H). reflexivity.
Qed.

(** A start marker that no end marker follows: the loop ends at the second
    [break], and the text keeps the marker. *)
Lemma scanMatches_unmatched (fuel : nat) (pre t : QString) (matches : list (Z * Z)) :
  ~ contains boldRed pre -> ~ contains resetColor t ->
  scanMatches fuel (pre ++ boldRed ++ t) matches = (pre ++ boldRed ++ t, matches).
Proof.
  intros Hs He. destruct fuel as [|fuel]; [reflexivity|].
  rewrite scanMatches_S. cbv zeta.
  rewrite (indexOf_first _ _ _ boldRed_unbordered Hs).
  pose proof (size_nonneg pre).
  destruct (size pre =? -1) eqn:E; [lia|].
  rewrite <- size_app, (app_assoc pre boldRed t).
  rewrite (indexOf_absent_from _ _ _ He). reflexivity.
Qed.

(** One pair of markers is spliced out and its span recorded. *)
Lemma scanMatches_pair (fuel : nat) (pre m rest : QString) (matches : list (Z * Z)) :
  ~ contains boldRed pre -> ~ contains resetColor m ->
  scanMatches (S fuel) (pre ++ boldRed ++ m ++ resetColor ++ rest) matches =
  scanMatches fuel (pre ++ m ++ rest) (matches ++ [(size pre, size m)]).
Proof.
  intros Hs He. rewrite scanMatches_S. cbv zeta.
  rewrite (indexOf_first _ _ _ boldRed_unbordered Hs).
  pose proof (size_nonneg pre). pose proof (size_nonneg m).
  pose proof (size_nonneg boldRed).
  destruct (size pre =? -1) eqn:E; [lia|].
  rewrite <- size_app.
  assert (Ei : indexOf (pre ++ boldRed ++ m ++ resetColor ++ rest) resetColor
                       (size (pre ++ boldRed)) = size (pre ++ boldRed) + size m).
  { rewrite (app_assoc pre boldRed).
    apply indexOf_first_from; [apply resetColor_unbordered | exact He]. }
  rewrite Ei. pose proof (size_nonneg (pre ++ boldRed)).
  destruct (size (pre ++ boldRed) + size m =? -1) eqn:E'; [lia|].
  replace (size (pre ++ boldRed) + size m - size (pre ++ boldRed))
    with (size m) by lia.
  rewrite left_app.
  replace (mid (pre ++ boldRed ++ m ++ resetColor ++ rest) (size (pre ++ boldRed)) (size m))
    with m
    by (rewrite (app_assoc pre boldRed); symmetry; apply mid_app).
  replace (mid (pre ++ boldRed ++ m ++ resetColor ++ rest)
               (size (pre ++ boldRed) + size m + size resetColor) (-1))
    with rest.
  - reflexivity.
  - replace (size (pre ++ boldRed) + size m + size resetColor)
      with (size (pre ++ boldRed ++ m ++ resetColor))
      by (rewrite !size_app; lia).
    replace (pre ++ boldRed ++ m ++ resetColor ++ rest)
      with ((pre ++ boldRed ++ m ++ resetColor) ++ rest)
      by (now rewrite <- !app_assoc).
    symmetry. apply mid_tail.
Qed.

Lemma markerFree_pre (pre x : QString) : markerFree (pre ++ x) -> markerFree pre.
Proof.
  intros [H1 H2]. split; intros C; [apply H1 | apply H2]; now apply contains_app_l.
Qed.

Lemma markerFree_mid (pre m x : QString) :
  markerFree (pre ++ m ++ x) -> markerFree m.
Proof.
  intros [H1 H2].
  split; intros C; [apply H1 | apply H2];
    now apply contains_app_r, contains_app_l.
Qed.

(** The loop on well-formed text: every pair is spliced out, in order, and
    the spans are those of the text without markers. *)
Lemma scanMatches_wellformed (segs : list Segment) :
  forall (pre tail : QString) (matches : list (Z * Z)) (fuel : nat),
    markerFree (pre ++ plainText segs) -> unmatchedTail tail ->
    (length segs < fuel)%nat ->
    scanMatches fuel (pre ++ highlight segs ++ tail) matches =
    (pre ++ plainText segs ++ tail, matches ++ spans (size pre) segs).
Proof.
  induction segs as [|[m p] segs IH]; intros pre tail matches fuel MF UT Hf.
  - cbn [highlight plainText spans app] in *. rewrite app_nil_r in *.
    destruct UT as [->|(t & -> & Ht)].
    + rewrite app_nil_r. apply scanMatches_done, MF.
    + apply scanMatches_unmatched; [apply MF | exact Ht].
  - destruct fuel as [|fuel]; [simpl in Hf; lia|].
    cbn [highlight plainText spans] in *.
    replace (pre ++ (boldRed ++ m ++ resetColor ++ p ++ highlight segs) ++ tail)
      with (pre ++ boldRed ++ m ++ resetColor ++ (p ++ highlight segs ++ tail))
      by (now rewrite <- !app_assoc).
    rewrite scanMatches_pair;
      [| apply (markerFree_pre _ _ MF) | apply (markerFree_mid _ _ _ MF)].
    replace (pre ++ m ++ p ++ highlight segs ++ tail)
      with ((pre ++ m ++ p) ++ highlight segs ++ tail)
      by (now rewrite <- !app_assoc).
    rewrite IH; [| now rewrite <- !app_assoc | exact UT | simpl in Hf; lia].
    rewrite !size_app, <- !app_assoc. cbn [app].
    now rewrite Z.add_assoc.
Qed.

(** *** The loop ends *)

Lemma indexOf_range (s p : QString) (from : Z) :
  0 <= from -> indexOf s p from <> -1 ->
  from <= indexOf s p from /\ indexOf s p from + size p <= size s.
Proof.
  intros Hf. unfold indexOf. cbv zeta.
  repeat rewrite (proj2 (Z.ltb_ge from 0)) by lia. cbn [orb].
  destruct (size s <? size p + from) eqn:E; [congruence|].
  apply Z.ltb_ge in E.
  destruct (find p (skipn (Z.to_nat from) s)) as [i|] eqn:F; [|congruence].
  intros _. apply find_Some_bound in F. rewrite length_skipn in F.
  unfold size in *. lia.
Qed.

Lemma size_left (s : QString) (n : Z) : 0 <= n <= size s -> size (left s n) = n.
Proof.
  intros Hn. unfold left.
  rewrite (proj2 (Z.ltb_ge n 0)) by lia. cbn [orb].
  destruct (size s <=? n) eqn:E.
  - apply Z.leb_le in E. lia.
  - unfold size in *. rewrite length_firstn. lia.
Qed.

Lemma size_mid_le (s : QString) (position n : Z) :
  0 <= position -> 0 <= n -> size (mid s position n) <= n.
Proof.
  intros Hp Hn. unfold mid. cbv zeta.
  destruct (size s <? position) eqn:E; [unfold size; simpl; lia|].
  apply Z.ltb_ge in E.
  rewrite (proj2 (Z.ltb_ge position 0)) by lia.
  rewrite (proj2 (Z.ltb_ge n 0)) by lia. cbn [orb].
  destruct (size s - position <? n) eqn:E'; unfold size in *;
    rewrite length_firstn, length_skipn; [apply Z.ltb_lt in E'|]; lia.
Qed.

Lemma size_mid_tail (s : QString) (position : Z) :
  0 <= position <= size s -> size (mid s position (-1)) = size s - position.
Proof.
  intros Hp. unfold mid. cbv zeta.
  rewrite (proj2 (Z.ltb_ge (size s) position)) by lia.
  rewrite (proj2 (Z.ltb_ge position 0)) by lia.
  change (-1 <? 0) with true. cbn [orb].
  unfold size in *. rewrite length_firstn, length_skipn. lia.
Qed.

(** The text an iteration continues with is shorter by the two markers. *)
Lemma splice_shorter (text : QString) :
  let matchStart := indexOf text boldRed 0 in
  let matchTextStart := matchStart + size boldRed in
  let matchEnd := indexOf text resetColor matchTextStart in
  matchStart <> -1 -> matchEnd <> -1 ->
  (length (left text matchStart
             ++ mid text matchTextStart (matchEnd - matchTextStart)
             ++ mid text (matchEnd + size resetColor) (-1))
   < length text)%nat.
Proof.
  intros matchStart matchTextStart matchEnd Hs He.
  destruct (indexOf_range text boldRed 0 (Z.le_refl 0) Hs) as [S0 S1].
  fold matchStart in S0, S1.
  assert (Hts : 0 <= matchTextStart)
    by (unfold matchTextStart; pose proof (size_nonneg boldRed); lia).
  destruct (indexOf_range text resetColor matchTextStart Hts He) as [E0 E1].
  fold matchEnd in E0, E1.
  assert (Hb : size boldRed = 7) by reflexivity.
  assert (Hr : size resetColor = 3) by reflexivity.
  apply Nat2Z.inj_lt. fold (size text).
  match goal with |- Z.of_nat (length ?t) < _ => fold (size t) end.
  rewrite !size_app, size_left, size_mid_tail by lia.
  pose proof (size_mid_le text matchTextStart (matchEnd - matchTextStart)).
  unfold matchTextStart in *. lia.
Qed.

(** [S (length text)] iterations are enough: more fuel changes nothing. *)
Lemma scanMatches_fuel (f1 : nat) :
  forall (f2 : nat) (text : QString) (matches : list (Z * Z)),
    (length text < f1)%nat -> (length text < f2)%nat ->
    scanMatches f1 text matches = scanMatches f2 text matches.
Proof.
  induction f1 as [|f1 IH]; intros f2 text matches H1 H2; [lia|].
  destruct f2 as [|f2]; [lia|].
  rewrite !scanMatches_S. cbv zeta.
  destruct (indexOf text boldRed 0 =? -1) eqn:Es; [reflexivity|].
  destruct (indexOf text resetColor (indexOf text boldRed 0 + size boldRed) =? -1)
    eqn:Ee; [reflexivity|].
  apply Z.eqb_neq in Es, Ee.
  pose proof (splice_shorter text Es Ee) as L. cbv zeta in L.
  apply IH; lia.
Qed.

(** With that fuel the loop ends at one of its two [break]s: the text it
    leaves has no start marker, or its first start marker has no end marker
    after it. *)
Lemma scanMatches_exit (fuel : nat) :
  forall (text : QString) (matches : list (Z * Z)),
    (length text < fuel)%nat ->
    let text' := fst (scanMatches fuel text matches) in
    indexOf text' boldRed 0 = -1 \/
    indexOf text' resetColor (indexOf text' boldRed 0 + size boldRed) = -1.
Proof.
  induction fuel as [|fuel IH]; intros text matches Hf; [lia|].
  cbv zeta. rewrite scanMatches_S. cbv zeta.
  destruct (indexOf text boldRed 0 =? -1) eqn:Es.
  { left. now apply Z.eqb_eq in Es. }
  destruct (indexOf text resetColor (indexOf text boldRed 0 + size boldRed) =? -1)
    eqn:Ee.
  { right. now apply Z.eqb_eq in Ee. }
  apply Z.eqb_neq in Es, Ee.
  pose proof (splice_shorter text Es Ee) as L. cbv zeta in L.
  apply IH. lia.
Qed.

End Scan.

(** ** One line *)

Section Line.

Variables m_directory m_ref : QString.

Lemma contains_single (c : QChar) (s : QString) : contains [c] s -> In c s.
Proof.
  intros (a & b & ->). apply in_or_app. right. now left.
Qed.

Lemma single_unbordered (c : QChar) : unbordered [c].
Proof. simpl. tauto. Qed.

(** A decidable reading of [markerFree], [contains] and [In]. *)
Lemma markerFree_find (s : QString) :
  find boldRed s = None -> find resetColor s = None -> markerFree s.
Proof.
  intros H1 H2. split; now apply find_None.
Qed.

Lemma not_contains_find (p s : QString) : find p s = None -> ~ contains p s.
Proof. apply find_None. Qed.

Lemma not_In_find (c : QChar) (s : QString) : find [c] s = None -> ~ In c s.
Proof.
  intros H HI. apply (find_None _ _ H).
  apply in_split in HI as (a & b & ->). exists a, b. reflexivity.
Qed.



Lemma highlight_length (segs : list Segment) :
  (length segs <= length (highlight segs))%nat.
Proof.
  induction segs as [|[m p] segs IH]; [simpl; lia|].
  cbn [highlight]. rewrite !length_app. simpl. lia.
Qed.

Lemma processLine_app (line : QString) (resultList : FileSearchResultList) :
  processLine m_directory m_ref line resultList =
  resultList ++ processLine m_directory m_ref line [].
Proof.
  unfold processLine. destruct (isEmpty line); [now rewrite app_nil_r|].
  destruct (scanMatches _ _ _). reflexivity.
Qed.

(** The results of a line whose text is well-formed, up to a start marker
    that is left unmatched. *)
Lemma processLine_wellformed (line p0 tail : QString) (segs : list Segment)
      (resultList : FileSearchResultList) :
  rawText line = p0 ++ highlight segs ++ tail ->
  markerFree (p0 ++ plainText segs) -> unmatchedTail tail ->
  processLine m_directory m_ref line resultList =
  resultList ++ map (recordOf m_directory m_ref line (p0 ++ plainText segs ++ tail))
                    (spans (size p0) segs).
Proof.
  intros Ht MF UT. unfold processLine. destruct (isEmpty line) eqn:E.
  - destruct line; [|discriminate]. change (rawText []) with (@nil QChar) in Ht.
    symmetry in Ht. apply app_eq_nil in Ht as [_ Ht].
    apply app_eq_nil in Ht as [Ht _]. destruct segs as [|[m p] segs].
    + simpl. now rewrite app_nil_r.
    + discriminate Ht.
  - rewrite Ht, scanMatches_wellformed with (matches := []); [reflexivity|..];
      try assumption.
    rewrite !length_app. pose proof (highlight_length segs). lia.
Qed.

(** Position and extent of the spans inside the text without markers. *)
Lemma spans_bounds (segs : list Segment) :
  forall offset : Z,
    Forall (fun span => offset <= fst span /\ 0 <= snd span /\
                        fst span + snd span <= offset + size (plainText segs))
           (spans offset segs).
Proof.
  induction segs as [|[m p] segs IH]; intros offset; [constructor|].
  cbn [spans plainText]. rewrite !size_app.
  pose proof (size_nonneg m). pose proof (size_nonneg p).
  pose proof (size_nonneg (plainText segs)).
  constructor; [simpl; lia|].
  eapply Forall_impl; [|apply IH]. simpl. intros span. lia.
Qed.

Lemma spans_length (segs : list Segment) (offset : Z) :
  length (spans offset segs) = length segs.
Proof.
  revert offset; induction segs as [|[m p] segs IH]; intros offset;
    [reflexivity|]. cbn [spans length]. now rewrite IH.
Qed.


Lemma spans_sorted (segs : list Segment) :
  forall (offset : Z) (mk : Z * Z -> FileSearchResult),
    (forall span, matchStart (mk span) = fst span /\ matchLength (mk span) = snd span) ->
    StronglySorted precedes (map mk (spans offset segs)).
Proof.
  induction segs as [|[m p] segs IH]; intros offset mk Hmk; [constructor|].
  cbn [spans map]. constructor; [now apply IH|].
  apply Forall_map. eapply Forall_impl; [|apply spans_bounds].
  intros span (H1 & _). unfold precedes.
  destruct (Hmk (offset, size m)) as [-> ->]. destruct (Hmk span) as [-> _].
  pose proof (size_nonneg p). simpl. lia.
Qed.

End Line.

(** ** One chunk *)

Section Chunk.

Variables m_directory m_ref : QString.

Lemma isCanceled_quiet (fi : FutureInterface) :
  quiet fi -> isCanceled fi = (false, fi).
Proof.
  intros [Hc Hr]. unfold isCanceled, observe. rewrite Hr, Hc. reflexivity.
Qed.

Lemma readLine_shorter (s : QString) :
  (length (snd (readLine s)) <= length s - 1)%nat.
Proof.
  induction s as [|ch rest IH]; [simpl; lia|].
  cbn [readLine]. destruct (N.eqb ch LF); [simpl; lia|].
  destruct rest as [|ch' rest'].
  - destruct (N.eqb ch CR); simpl; lia.
  - destruct (N.eqb ch CR && N.eqb ch' LF); [simpl; lia|].
    destruct (readLine (ch' :: rest')) as [line stream'].
    cbn [snd length] in *. lia.
Qed.

Lemma readLoop_S (fuel : nat) (stream : QString) (fi : FutureInterface)
      (resultList : FileSearchResultList) :
  readLoop (S fuel) m_directory m_ref stream fi resultList =
  if atEnd stream then (fi, resultList)
  else
    let '(c, fi') := isCanceled fi in
    if c then (fi', resultList)
    else
      let '(line, stream') := readLine stream in
      readLoop fuel m_directory m_ref stream' fi'
               (processLine m_directory m_ref line resultList).
Proof. reflexivity. Qed.

(** [length stream] iterations are enough: more fuel changes nothing. *)
Lemma readLoop_fuel (f1 : nat) :
  forall (f2 : nat) (stream : QString) (fi : FutureInterface)
         (resultList : FileSearchResultList),
    (length stream <= f1)%nat -> (length stream <= f2)%nat ->
    readLoop f1 m_directory m_ref stream fi resultList =
    readLoop f2 m_directory m_ref stream fi resultList.
Proof.
  induction f1 as [|f1 IH]; intros f2 stream fi rl H1 H2.
  - destruct stream; [|simpl in H1; lia]. destruct f2; reflexivity.
  - destruct f2 as [|f2].
    + destruct stream; [reflexivity | simpl in H2; lia].
    + rewrite !readLoop_S. destruct (atEnd stream) eqn:E; [reflexivity|].
      destruct (isCanceled fi) as [c fi']. destruct c; [reflexivity|].
      pose proof (readLine_shorter stream) as L.
      destruct (readLine stream) as [line stream']. cbn [snd] in L.
      destruct stream; [discriminate E|]. simpl in H1, H2, L.
      apply IH; lia.
Qed.

(** Without cancellation the loop leaves the future alone and appends the
    records of the chunk. *)
Lemma readLoop_quiet (fuel : nat) :
  forall (stream : QString) (fi : FutureInterface)
         (resultList : FileSearchResultList),
    quiet fi ->
    readLoop fuel m_directory m_ref stream fi resultList =
    (fi, resultList ++ snd (readLoop fuel m_directory m_ref stream freshFuture [])).
Proof.
  induction fuel as [|fuel IH]; intros stream fi rl Q.
  - simpl. now rewrite app_nil_r.
  - rewrite !readLoop_S. destruct (atEnd stream); [simpl; now rewrite app_nil_r|].
    rewrite (isCanceled_quiet fi Q).
    change (isCanceled freshFuture) with (false, freshFuture).
    destruct (readLine stream) as [line stream'].
    rewrite (IH stream' fi _ Q).
    rewrite (IH stream' freshFuture (processLine _ _ line [])); [|split; reflexivity].
    cbn [snd]. rewrite (processLine_app _ _ line rl), <- app_assoc.
    reflexivity.
Qed.

(** The records of a chunk are those of its first line, whatever they are,
    followed by those of the lines after it. *)
Lemma chunkRecords_step (stream : QString) :
  stream <> [] ->
  chunkRecords m_directory m_ref stream =
  processLine m_directory m_ref (fst (readLine stream)) []
    ++ chunkRecords m_directory m_ref (snd (readLine stream)).
Proof.
  intros Hne. unfold chunkRecords.
  destruct stream as [|c s]; [contradiction|].
  change (length (c :: s)) with (S (length s)). rewrite readLoop_S.
  change (atEnd (c :: s)) with false. cbv iota.
  change (isCanceled freshFuture) with (false, freshFuture). cbv iota.
  pose proof (readLine_shorter (c :: s)) as L.
  destruct (readLine (c :: s)) as [line stream']. cbn [fst snd] in *.
  simpl in L.
  rewrite (readLoop_fuel (length s) (length stream')) by lia.
  rewrite readLoop_quiet by (split; reflexivity). reflexivity.
Qed.

Lemma readLine_cons2 (ch ch' : QChar) (rest : QString) :
  readLine (ch :: ch' :: rest) =
  if N.eqb ch LF then ([], ch' :: rest)
  else if N.eqb ch CR && N.eqb ch' LF then ([], rest)
       else let '(line, stream') := readLine (ch' :: rest) in (ch :: line, stream').
Proof. reflexivity. Qed.

Lemma readLine_app (t1 t2 : QString) :
  In LF t1 ->
  readLine (t1 ++ t2) = (fst (readLine t1), snd (readLine t1) ++ t2).
Proof.
  induction t1 as [|ch rest IH]; intros HI; [contradiction|].
  destruct (N.eqb ch LF) eqn:E.
  { change ((ch :: rest) ++ t2) with (ch :: (rest ++ t2)).
    cbn [readLine]. rewrite E. reflexivity. }
  destruct HI as [HI|HI]; [subst ch; discriminate E|].
  destruct rest as [|ch' rest']; [contradiction|].
  change ((ch :: ch' :: rest') ++ t2) with (ch :: ch' :: (rest' ++ t2)).
  rewrite !readLine_cons2, E.
  destruct (N.eqb ch CR && N.eqb ch' LF); [reflexivity|].
  change (ch' :: (rest' ++ t2)) with ((ch' :: rest') ++ t2).
  rewrite (IH HI). destruct (readLine (ch' :: rest')). reflexivity.
Qed.

Lemma lineAligned_In (t : QString) : t <> [] -> lineAligned t -> In LF t.
Proof.
  unfold lineAligned. induction t as [|c t IH]; intros Hne HL; [contradiction|].
  destruct t as [|d t]; [left; exact HL|].
  right. apply IH; [discriminate | exact HL].
Qed.

Lemma readLine_aligned (t : QString) :
  lineAligned t -> lineAligned (snd (readLine t)).
Proof.
  unfold lineAligned. induction t as [|ch rest IH]; intros HL; [reflexivity|].
  cbn [readLine]. destruct (N.eqb ch LF) eqn:E.
  - destruct rest; [reflexivity | exact HL].
  - destruct rest as [|ch' rest'].
    + destruct (N.eqb ch CR); reflexivity.
    + destruct (N.eqb ch CR && N.eqb ch' LF).
      * destruct rest'; [reflexivity | exact HL].
      * specialize (IH HL). destruct (readLine (ch' :: rest')). exact IH.
Qed.

(** Cutting a chunk where a line ends does not change its records. *)
Lemma chunkRecords_app (t1 t2 : QString) :
  lineAligned t1 ->
  chunkRecords m_directory m_ref (t1 ++ t2) =
  chunkRecords m_directory m_ref t1 ++ chunkRecords m_directory m_ref t2.
Proof.
  remember (length t1) as n eqn:Hn. revert t1 Hn.
  induction n as [n IH] using lt_wf_ind. intros t1 Hn HL.
  destruct t1 as [|c t1']; [reflexivity|].
  assert (Hne : c :: t1' <> []) by discriminate.
  rewrite (chunkRecords_step (c :: t1') Hne).
  rewrite (chunkRecords_step ((c :: t1') ++ t2)) by discriminate.
  rewrite (readLine_app _ t2 (lineAligned_In _ Hne HL)). cbn [fst snd].
  pose proof (readLine_shorter (c :: t1')) as L.
  rewrite (IH (length (snd (readLine (c :: t1'))))); subst n;
    [now rewrite app_assoc | simpl in *; lia | reflexivity
    | now apply readLine_aligned].
Qed.

End Chunk.

(** ** The runner and its future *)

Section Runner.

Lemma read_fields (r : GitGrepRunner) (chunk : QString) :
  m_directory (read r chunk) = m_directory r /\
  m_ref (read r chunk) = m_ref r /\
  m_parameters (read r chunk) = m_parameters r.
Proof.
  unfold read. destruct (readLoop _ _ _ _ _ _) as [fi rl].
  destruct (negb (isEmpty rl)); repeat split.
Qed.

Lemma fold_read_fields (chunks : list QString) :
  forall r : GitGrepRunner,
    m_directory (fold_left read chunks r) = m_directory r /\
    m_ref (fold_left read chunks r) = m_ref r.
Proof.
  induction chunks as [|c chunks IH]; intros r; [split; reflexivity|].
  cbn [fold_left]. destruct (IH (read r c)) as [-> ->].
  destruct (read_fields r c) as (-> & -> & _). split; reflexivity.
Qed.

Lemma observe_keeps (fi : FutureInterface) :
  results (observe fi) = results fi /\
  finished (observe fi) = finished fi /\
  (canceled fi = true -> canceled (observe fi) = true).
Proof.
  unfold observe. destruct (cancelRequest fi) as [[|k]|]; repeat split; auto.
Qed.

(** The loop publishes nothing, and a raised flag stays raised. *)
Lemma readLoop_keeps (dir rf : QString) (fuel : nat) :
  forall (stream : QString) (fi : FutureInterface)
         (resultList : FileSearchResultList),
    let fi' := fst (readLoop fuel dir rf stream fi resultList) in
    results fi' = results fi /\ finished fi' = finished fi /\
    (canceled fi = true -> canceled fi' = true).
Proof.
  induction fuel as [|fuel IH]; intros stream fi rl; [repeat split; auto|].
  cbv zeta. rewrite readLoop_S. destruct (atEnd stream); [repeat split; auto|].
  unfold isCanceled. destruct (observe_keeps fi) as (Hr & Hf & Hc).
  destruct (canceled (observe fi)) eqn:E.
  - cbn [fst]. repeat split; auto.
  - destruct (readLine stream) as [line stream'].
    specialize (IH stream' (observe fi) (processLine dir rf line rl)).
    cbv zeta in IH. destruct IH as (IH1 & IH2 & IH3).
    rewrite IH1, IH2. repeat split; auto.
    intros C. discriminate (Hc C).
Qed.

(** A raised flag ends the loop before its first line. *)
Lemma readLoop_canceled (dir rf : QString) (fuel : nat) (stream : QString)
      (fi : FutureInterface) (resultList : FileSearchResultList) :
  canceled fi = true ->
  snd (readLoop fuel dir rf stream fi resultList) = resultList.
Proof.
  intros C. destruct fuel as [|fuel]; [reflexivity|].
  rewrite readLoop_S. destruct (atEnd stream); [reflexivity|].
  unfold isCanceled. destruct (observe_keeps fi) as (_ & _ & Hc).
  rewrite (Hc C). reflexivity.
Qed.

Lemma reportResult_keeps (fi : FutureInterface) (result : FileSearchResultList) :
  finished (reportResult fi result) = finished fi /\
  (canceled fi = true -> canceled (reportResult fi result) = true) /\
  (canceled (reportResult fi result) = true ->
   results (reportResult fi result) = results fi).
Proof.
  unfold reportResult. destruct (observe_keeps fi) as (Hr & Hf & Hc).
  destruct (canceled (observe fi)) eqn:E;
    destruct (finished (observe fi)) eqn:F;
    cbn [orb canceled finished results]; rewrite ?E, ?F;
    repeat split; try congruence; intros C; try specialize (Hc C); congruence.
Qed.

(** [read] under a raised flag: whatever the chunk holds, nothing is
    published and the flag stays raised. *)
Lemma read_canceled (r : GitGrepRunner) (chunk : QString) :
  canceled (m_fi r) = true ->
  canceled (m_fi (read r chunk)) = true /\
  results (m_fi (read r chunk)) = results (m_fi r).
Proof.
  intros C. unfold read.
  pose proof (readLoop_keeps (m_directory r) (m_ref r) (length chunk) chunk
                (m_fi r) []) as K.
  pose proof (readLoop_canceled (m_directory r) (m_ref r) (length chunk) chunk
                (m_fi r) [] C) as N.
  destruct (readLoop _ _ _ _ _ _) as [fi rl]. cbv zeta in K.
  cbn [fst snd] in K, N. subst rl. cbn [isEmpty negb m_fi set_m_fi].
  destruct K as (K1 & _ & K3). auto.
Qed.

(** [read] while nobody cancels: the records of the chunk are published, as
    one batch unless there is none. *)
Lemma read_quiet (r : GitGrepRunner) (chunk : QString) :
  quiet (m_fi r) -> finished (m_fi r) = false ->
  quiet (m_fi (read r chunk)) /\ finished (m_fi (read r chunk)) = false /\
  publishedRecords (m_fi (read r chunk)) =
  publishedRecords (m_fi r) ++ chunkRecords (m_directory r) (m_ref r) chunk.
Proof.
  intros Q F. unfold read, chunkRecords.
  rewrite (readLoop_quiet _ _ _ _ _ _ Q). cbn [app].
  destruct (snd (readLoop _ _ _ _ _ _)) as [|x rl] eqn:E;
    cbn [isEmpty negb m_fi set_m_fi].
  - repeat split; try apply Q; try assumption. now rewrite app_nil_r.
  - destruct Q as [Qc Qr]. unfold reportResult, observe. rewrite Qr, Qc, F.
    cbn [orb canceled cancelRequest finished]. repeat split; try assumption.
    unfold publishedRecords. cbn [results].
    rewrite concat_app. cbn [List.concat]. now rewrite app_nil_r.
Qed.

Lemma read_stays_quiet (r : GitGrepRunner) (chunk : QString) :
  quiet (m_fi r) -> quiet (m_fi (read r chunk)).
Proof.
  intros Q. unfold read. rewrite (readLoop_quiet _ _ _ _ _ _ Q). cbn [app].
  destruct (snd (readLoop _ _ _ _ _ _)) as [|x rl];
    cbn [isEmpty negb m_fi set_m_fi]; [exact Q|].
  destruct Q as [Qc Qr]. unfold reportResult, observe. rewrite Qr, Qc.
  destruct (finished (m_fi r)); cbn [orb]; split; cbn;
    solve [assumption | reflexivity].
Qed.

Lemma fold_read_stays_quiet (chunks : list QString) :
  forall r : GitGrepRunner,
    quiet (m_fi r) -> quiet (m_fi (fold_left read chunks r)).
Proof.
  induction chunks as [|c chunks IH]; intros r Q; [exact Q|].
  cbn [fold_left]. apply IH, read_stays_quiet, Q.
Qed.

Lemma fold_read_quiet (chunks : list QString) :
  forall r : GitGrepRunner,
    quiet (m_fi r) -> finished (m_fi r) = false ->
    quiet (m_fi (fold_left read chunks r)) /\
    finished (m_fi (fold_left read chunks r)) = false /\
    publishedRecords (m_fi (fold_left read chunks r)) =
    publishedRecords (m_fi r)
      ++ concat (map (chunkRecords (m_directory r) (m_ref r)) chunks).
Proof.
  induction chunks as [|c chunks IH]; intros r Q F.
  - cbn [fold_left map List.concat]. rewrite app_nil_r. auto.
  - cbn [fold_left map List.concat].
    destruct (read_quiet r c Q F) as (Q' & F' & P').
    destruct (IH (read r c) Q' F') as (Q'' & F'' & P'').
    destruct (read_fields r c) as (Ed & Er & _).
    rewrite P'', P', Ed, Er, <- app_assoc. auto.
Qed.

Lemma chunkRecords_concat (dir rf : QString) (chunks : list QString) :
  Forall lineAligned (removelast chunks) ->
  chunkRecords dir rf (concat chunks) = concat (map (chunkRecords dir rf) chunks).
Proof.
  induction chunks as [|c chunks IH]; intros HA; [reflexivity|].
  destruct chunks as [|c' chunks].
  - cbn [List.concat map]. now rewrite !app_nil_r.
  - cbn [removelast] in HA. apply Forall_cons_iff in HA as [Hc HA].
    change (concat (c :: c' :: chunks)) with (c ++ concat (c' :: chunks)).
    rewrite chunkRecords_app by exact Hc.
    cbn [map List.concat] in *. now rewrite IH.
Qed.

End Runner.

(** ** Decoding one line: the claims *)

Section LineClaims.

Variables m_directory m_ref : QString.

Lemma In_map_recordOf (line lineText : QString) (l : list (Z * Z))
      (r : FileSearchResult) :
  In r (map (recordOf m_directory m_ref line lineText) l) ->
  exists span, In span l /\ matchingLine r = lineText /\
               matchStart r = fst span /\ matchLength r = snd span.
Proof.
  intros H. apply in_map_iff in H as (span & <- & H). exists span. auto.
Qed.

(** C5 (amended).  On a line whose text is well-formed -- spans of a text
    without marker sequences, each written between a start and an end
    marker -- every record lies inside the line text, and the line text
    contains neither marker. *)
Theorem processLine_record_invariant (line p0 : QString) (segs : list Segment)
        (r : FileSearchResult) :
  rawText line = p0 ++ highlight segs ->
  markerFree (p0 ++ plainText segs) ->
  In r (processLine m_directory m_ref line []) ->
  0 <= matchStart r /\ 0 <= matchLength r /\
  matchStart r + matchLength r <= size (matchingLine r) /\
  ~ contains boldRed (matchingLine r) /\
  ~ contains resetColor (matchingLine r).
Proof.
  intros Ht MF HI.
  rewrite (processLine_wellformed m_directory m_ref line p0 [] segs []) in HI;
    [| now rewrite app_nil_r | exact MF | now left].
  cbn [app] in HI. rewrite app_nil_r in HI.
  apply In_map_recordOf in HI as (span & HI & -> & -> & ->).
  pose proof (spans_bounds segs (size p0)) as B.
  rewrite Forall_forall in B. specialize (B span HI).
  rewrite size_app. pose proof (size_nonneg p0).
  repeat split; try lia; apply MF.
Qed.


Lemma StronglySorted_impl {A : Type} (R1 R2 : A -> A -> Prop) (l : list A) :
  (forall a b, R1 a b -> R2 a b) -> StronglySorted R1 l -> StronglySorted R2 l.
Proof.
  intros HR HS. induction HS as [|a l HS IH HF]; constructor; [exact IH|].
  eapply Forall_impl; [|exact HF]. intros b. apply HR.
Qed.

(** C10 (amended).  On a line whose text is well-formed, the records are in
    the order of the line and their spans do not overlap: each record ends
    at or before the start of every later one, so the offsets increase
    strictly after every span that is not empty. *)
Theorem processLine_spans_ordered (line p0 : QString) (segs : list Segment) :
  rawText line = p0 ++ highlight segs ->
  markerFree (p0 ++ plainText segs) ->
  let records := processLine m_directory m_ref line [] in
  StronglySorted precedes records /\
  StronglySorted (fun a b => 0 < matchLength a -> matchStart a < matchStart b)
                 records.
Proof.
  intros Ht MF records.
  assert (S1 : StronglySorted precedes records).
  { unfold records.
    rewrite (processLine_wellformed m_directory m_ref line p0 [] segs []);
      [| now rewrite app_nil_r | exact MF | now left].
    cbn [app]. apply spans_sorted. intros span. split; reflexivity. }
  split; [exact S1|].
  apply (StronglySorted_impl precedes); [|exact S1].
  unfold precedes. intros a b H. lia.
Qed.

Lemma readLine_line (line rest : QString) :
  ~ In LF line -> ~ In CR line -> readLine (line ++ LF :: rest) = (line, rest).
Proof.
  induction line as [|ch l IH]; intros HL HC; [reflexivity|].
  assert (E1 : N.eqb ch LF = false)
    by (apply N.eqb_neq; intros ->; apply HL; now left).
  assert (E2 : N.eqb ch CR = false)
    by (apply N.eqb_neq; intros ->; apply HC; now left).
  assert (IH' : readLine (l ++ LF :: rest) = (l, rest))
    by (apply IH; intros H; [apply HL | apply HC]; now right).
  change ((ch :: l) ++ LF :: rest) with (ch :: (l ++ LF :: rest)).
  destruct (l ++ LF :: rest) as [|ch' x] eqn:E.
  - destruct l; discriminate E.
  - rewrite readLine_cons2, E1, E2, IH'. reflexivity.
Qed.

(** C3 (amended).  On a line where a start marker has no end marker after
    it, the loop stops at that marker: the line yields the records of the
    pairs before it (none when it is the first marker), and their line text
    keeps the unmatched marker and what follows it.  The lines after it in
    the chunk are decoded as usual. *)
Theorem processLine_unmatched_start (line p0 t : QString) (segs : list Segment) :
  rawText line = p0 ++ highlight segs ++ boldRed ++ t ->
  markerFree (p0 ++ plainText segs) ->
  ~ contains resetColor t ->
  let records := processLine m_directory m_ref line [] in
  records = map (recordOf m_directory m_ref line
                          (p0 ++ plainText segs ++ boldRed ++ t))
                (spans (size p0) segs) /\
  length records = length segs /\
  (forall r, In r records -> contains boldRed (matchingLine r)) /\
  (forall rest : QString,
      ~ In LF line -> ~ In CR line ->
      chunkRecords m_directory m_ref (line ++ LF :: rest)
      = records ++ chunkRecords m_directory m_ref rest).
Proof.
  intros Ht MF He records.
  assert (E : records
              = map (recordOf m_directory m_ref line
                              (p0 ++ plainText segs ++ boldRed ++ t))
                    (spans (size p0) segs)).
  { unfold records.
    rewrite (processLine_wellformed m_directory m_ref line p0 (boldRed ++ t) segs []);
      [reflexivity | exact Ht | exact MF | right; exists t; auto]. }
  split; [exact E|]. split; [|split].
  - now rewrite E, length_map, spans_length.
  - intros r HI. rewrite E in HI.
    apply In_map_recordOf in HI as (span & _ & -> & _).
    exists (p0 ++ plainText segs), t. now rewrite <- app_assoc.
  - intros rest HL HC.
    rewrite chunkRecords_step by (destruct line; discriminate).
    now rewrite (readLine_line line rest HL HC).
Qed.

End LineClaims.

Ltac by_computation := vm_compute; reflexivity.

(** C5 at the scenario line and its one record. *)
Lemma processLine_record_invariant_witness :
  (rawText scenarioLine = QLatin1String "foo " ++ highlight scenarioSegments /\
   markerFree (QLatin1String "foo " ++ plainText scenarioSegments) /\
   In scenarioRecord (processLine (QLatin1String "/repo") [] scenarioLine [])) /\
  (0 <= matchStart scenarioRecord /\ 0 <= matchLength scenarioRecord /\
   matchStart scenarioRecord + matchLength scenarioRecord
   <= size (matchingLine scenarioRecord) /\
   ~ contains boldRed (matchingLine scenarioRecord) /\
   ~ contains resetColor (matchingLine scenarioRecord)).
Proof.
  assert (H1 : rawText scenarioLine
               = QLatin1String "foo " ++ highlight scenarioSegments)
    by by_computation.
  assert (H2 : markerFree (QLatin1String "foo " ++ plainText scenarioSegments))
    by (apply markerFree_find; by_computation).
  assert (H3 : In scenarioRecord
                  (processLine (QLatin1String "/repo") [] scenarioLine []))
    by (vm_compute; left; reflexivity).
  split; [exact (conj H1 (conj H2 H3))|].
  exact (processLine_record_invariant (QLatin1String "/repo") [] scenarioLine
           (QLatin1String "foo ") scenarioSegments scenarioRecord H1 H2 H3).
Defined.

(** C5 fails on lines that are not well-formed: a record may reach beyond
    the line text, and the line text may keep a start or an end marker. *)
Lemma record_invariant_fails :
  (exists r, In r (processLine [] [] junctionLine []) /\
             ~ matchStart r + matchLength r <= size (matchingLine r)) /\
  (exists r, In r (processLine [] [] unmatchedLine []) /\
             contains boldRed (matchingLine r)) /\
  (exists r, In r (processLine [] [] strayEndLine []) /\
             contains resetColor (matchingLine r)).
Proof.
  split; [|split].
  - exists (mkFileSearchResult (QLatin1String "/a.txt") 10 (QLatin1String "xy") 4 7).
    split; [vm_compute; left; reflexivity|].
    change (~ 4 + 7 <= 2). lia.
  - exists (mkFileSearchResult (QLatin1String "/a.txt") 10
              (QLatin1String "x " ++ boldRed ++ QLatin1String "y") 0 1).
    split; [vm_compute; left; reflexivity|].
    exists (QLatin1String "x "), (QLatin1String "y"). reflexivity.
  - exists (mkFileSearchResult (QLatin1String "/a.txt") 10
              (QLatin1String "x" ++ resetColor ++ QLatin1String "y") 4 1).
    split; [vm_compute; left; reflexivity|].
    exists (QLatin1String "x"), (QLatin1String "y"). reflexivity.
Qed.



(** C10 at a line with two spans. *)
Lemma processLine_spans_ordered_witness :
  (rawText twoSpansLine = QLatin1String "a" ++ highlight twoSpansSegments /\
   markerFree (QLatin1String "a" ++ plainText twoSpansSegments)) /\
  StronglySorted precedes (processLine (QLatin1String "/repo") [] twoSpansLine []) /\
  StronglySorted (fun a b => 0 < matchLength a -> matchStart a < matchStart b)
                 (processLine (QLatin1String "/repo") [] twoSpansLine []).
Proof.
  assert (H1 : rawText twoSpansLine
               = QLatin1String "a" ++ highlight twoSpansSegments)
    by by_computation.
  assert (H2 : markerFree (QLatin1String "a" ++ plainText twoSpansSegments))
    by (apply markerFree_find; by_computation).
  split; [exact (conj H1 H2)|].
  exact (processLine_spans_ordered (QLatin1String "/repo") [] twoSpansLine
           (QLatin1String "a") twoSpansSegments H1 H2).
Defined.

Lemma StronglySorted_pair {A : Type} (R : A -> A -> Prop) (a b : A) :
  StronglySorted R [a; b] -> R a b.
Proof.
  intros H. apply StronglySorted_inv in H as [_ H].
  apply Forall_inv in H. exact H.
Qed.

(** C10 fails as stated.  Two empty highlighted spans give two records with
    the same offset; and a line whose only highlighted text contains no
    marker sequence can give two records that overlap, once splicing its
    markers out has joined the units around them into a new pair. *)
Lemma spans_not_strictly_ordered :
  (rawText emptySpansLine = highlight [([], []); ([], [])] /\
   map (fun r => (matchStart r, matchLength r))
       (processLine [] [] emptySpansLine []) = [(0, 0); (0, 0)] /\
   ~ StronglySorted (fun a b => matchStart a < matchStart b)
       (processLine [] [] emptySpansLine [])) /\
  (rawText junctionLine
   = (ESC :: QLatin1String "[1;")
       ++ highlight [(QLatin1String "31mxy" ++ ESC :: QLatin1String "[",
                      QLatin1String "m")] /\
   markerFree (QLatin1String "31mxy" ++ ESC :: QLatin1String "[") /\
   map (fun r => (matchStart r, matchLength r))
       (processLine [] [] junctionLine []) = [(4, 7); (0, 2)] /\
   ~ StronglySorted precedes (processLine [] [] junctionLine [])).
Proof.
  assert (E1 : processLine [] [] emptySpansLine []
               = [mkFileSearchResult (QLatin1String "/a.txt") 10 [] 0 0;
                  mkFileSearchResult (QLatin1String "/a.txt") 10 [] 0 0])
    by by_computation.
  assert (E2 : processLine [] [] junctionLine []
               = [mkFileSearchResult (QLatin1String "/a.txt") 10
                                     (QLatin1String "xy") 4 7;
                  mkFileSearchResult (QLatin1String "/a.txt") 10
                                     (QLatin1String "xy") 0 2])
    by by_computation.
  rewrite E1, E2. split.
  - split; [by_computation|]. split; [reflexivity|].
    intros H. apply StronglySorted_pair in H. cbn in H. lia.
  - split; [by_computation|]. split; [apply markerFree_find; by_computation|].
    split; [reflexivity|].
    intros H. apply StronglySorted_pair in H. unfold precedes in H.
    cbn in H. lia.
Qed.

(** C3 at a line with one pair and an unmatched start marker after it. *)
Lemma processLine_unmatched_start_witness :
  (rawText unmatchedLine
   = [] ++ highlight [(QLatin1String "x", QLatin1String " ")]
        ++ boldRed ++ QLatin1String "y" /\
   markerFree ([] ++ plainText [(QLatin1String "x", QLatin1String " ")]) /\
   ~ contains resetColor (QLatin1String "y")) /\
  length (processLine (QLatin1String "/repo") [] unmatchedLine []) = 1%nat.
Proof.
  assert (H1 : rawText unmatchedLine
               = [] ++ highlight [(QLatin1String "x", QLatin1String " ")]
                    ++ boldRed ++ QLatin1String "y")
    by by_computation.
  assert (H2 : markerFree ([] ++ plainText [(QLatin1String "x", QLatin1String " ")]))
    by (apply markerFree_find; by_computation).
  assert (H3 : ~ contains resetColor (QLatin1String "y"))
    by (apply not_contains_find; by_computation).
  split; [exact (conj H1 (conj H2 H3))|].
  exact (proj1 (proj2
           (processLine_unmatched_start (QLatin1String "/repo") [] unmatchedLine
              [] (QLatin1String "y") [(QLatin1String "x", QLatin1String " ")]
              H1 H2 H3))).
Defined.

(** C3 fails as stated: a line whose second start marker has no end marker
    still yields the record of its first pair, and the line text of that
    record keeps the raw start marker. *)
Lemma unmatched_start_keeps_records :
  rawText unmatchedLine
  = highlight [(QLatin1String "x", QLatin1String " ")]
      ++ boldRed ++ QLatin1String "y" /\
  ~ contains resetColor (QLatin1String "y") /\
  processLine [] [] unmatchedLine []
  = [mkFileSearchResult (QLatin1String "/a.txt") 10
       (QLatin1String "x " ++ boldRed ++ QLatin1String "y") 0 1] /\
  processLine [] [] unmatchedLine [] <> [].
Proof.
  assert (E : processLine [] [] unmatchedLine []
              = [mkFileSearchResult (QLatin1String "/a.txt") 10
                   (QLatin1String "x " ++ boldRed ++ QLatin1String "y") 0 1])
    by by_computation.
  rewrite E.
  split; [by_computation|]. split; [apply not_contains_find; by_computation|].
  split; [reflexivity|]. discriminate.
Qed.

(** ** Chunks and cancellation: the claims *)

(** C2 (amended).  [read] keeps nothing between two calls: the end of a
    chunk ends a line.  So when every chunk but the last ends where a line
    ends, the chunks publish the records of the undivided stream, in the
    same order (the batches differ, their concatenation does not). *)
Theorem read_line_aligned_chunks (r : GitGrepRunner) (chunks : list QString) :
  quiet (m_fi r) -> finished (m_fi r) = false ->
  Forall lineAligned (removelast chunks) ->
  publishedRecords (m_fi (fold_left read chunks r))
  = publishedRecords (m_fi (read r (concat chunks))).
Proof.
  intros Q F HA.
  destruct (fold_read_quiet chunks r Q F) as (_ & _ & ->).
  destruct (read_quiet r (concat chunks) Q F) as (_ & _ & ->).
  now rewrite chunkRecords_concat.
Qed.

(** C2 at three chunks, the first two ending with a line feed. *)
Lemma read_line_aligned_chunks_witness :
  (quiet (m_fi (runnerOn freshFuture)) /\
   finished (m_fi (runnerOn freshFuture)) = false /\
   Forall lineAligned (removelast scenarioChunks)) /\
  publishedRecords (m_fi (fold_left read scenarioChunks (runnerOn freshFuture)))
  = publishedRecords (m_fi (read (runnerOn freshFuture) (concat scenarioChunks))).
Proof.
  assert (H1 : quiet (m_fi (runnerOn freshFuture))) by (split; reflexivity).
  assert (H2 : finished (m_fi (runnerOn freshFuture)) = false) by reflexivity.
  assert (H3 : Forall lineAligned (removelast scenarioChunks))
    by (repeat constructor).
  split; [exact (conj H1 (conj H2 H3))|].
  exact (read_line_aligned_chunks (runnerOn freshFuture) scenarioChunks H1 H2 H3).
Defined.

(** C2 fails as stated: a chunk that ends inside a line ends the line.  The
    two halves of the scenario line publish no record, the whole line
    publishes one. *)
Lemma read_split_mid_line :
  concat cutChunks = scenarioLine ++ [LF] /\
  publishedRecords (m_fi (fold_left read cutChunks (runnerOn freshFuture))) = [] /\
  publishedRecords (m_fi (read (runnerOn freshFuture) (concat cutChunks)))
  = [scenarioRecord].
Proof.
  repeat split; by_computation.
Qed.

Lemma read_dropped (r : GitGrepRunner) (chunk : QString) :
  canceled (m_fi (read r chunk)) = true ->
  results (m_fi (read r chunk)) = results (m_fi r).
Proof.
  unfold read.
  pose proof (readLoop_keeps (m_directory r) (m_ref r) (length chunk) chunk
                (m_fi r) []) as K.
  destruct (readLoop _ _ _ _ _ _) as [fi rl]. cbv zeta in K. cbn [fst] in K.
  destruct K as (K1 & _ & _).
  destruct rl as [|x rl]; cbn [isEmpty negb m_fi set_m_fi]; intros C.
  - exact K1.
  - destruct (reportResult_keeps fi (x :: rl)) as (_ & _ & H).
    now rewrite (H C).
Qed.

(** C4.  Publishing checks the cancellation flag first: a chunk at whose end
    the flag is raised -- before the chunk, between two of its lines, or just
    before its batch is handed over -- publishes nothing, its records are
    dropped; and once the flag is raised no later chunk publishes a batch. *)
Theorem read_after_cancel_publishes_nothing :
  (forall (r : GitGrepRunner) (chunk : QString),
      canceled (m_fi (read r chunk)) = true ->
      results (m_fi (read r chunk)) = results (m_fi r)) /\
  (forall (chunks : list QString) (r : GitGrepRunner),
      canceled (m_fi r) = true ->
      results (m_fi (fold_left read chunks r)) = results (m_fi r) /\
      canceled (m_fi (fold_left read chunks r)) = true).
Proof.
  split; [exact read_dropped|].
  induction chunks as [|c chunks IH]; intros r C; [auto|].
  cbn [fold_left]. destruct (read_canceled r c C) as [C' R'].
  destruct (IH (read r c) C') as [-> ->]. auto.
Qed.

(** C4 at a chunk of three lines with records, canceled after the first
    line: nothing is published. *)
Lemma read_after_cancel_publishes_nothing_witness :
  canceled (m_fi (read (runnerOn cancelSoon) (concat scenarioChunks))) = true /\
  chunkRecords (QLatin1String "/repo") [] (concat scenarioChunks) <> [] /\
  results (m_fi (read (runnerOn cancelSoon) (concat scenarioChunks)))
  = results (m_fi (runnerOn cancelSoon)).
Proof.
  assert (H1 : canceled (m_fi (read (runnerOn cancelSoon) (concat scenarioChunks)))
               = true) by by_computation.
  split; [exact H1|]. split; [vm_compute; discriminate|].
  exact (proj1 read_after_cancel_publishes_nothing
               (runnerOn cancelSoon) (concat scenarioChunks) H1).
Defined.

(** ** The command: the claims *)

Section ExecClaims.

Variables FindCaseSensitively FindWholeWords FindRegularExpression : Z.
Variable runCommand : QString -> QStringList -> list QString * Result.

Local Abbreviation arguments' :=
  (arguments FindCaseSensitively FindWholeWords FindRegularExpression).
Local Abbreviation exec' :=
  (exec FindCaseSensitively FindWholeWords FindRegularExpression runCommand).
Local Abbreviation executeSearch' :=
  (executeSearch FindCaseSensitively FindWholeWords FindRegularExpression
                 runCommand).
Local Abbreviation response' :=
  (response FindCaseSensitively FindWholeWords FindRegularExpression runCommand).

Lemma exec_unfold (r : GitGrepRunner) :
  let params := extensionParameters (m_parameters r) in
  let r1 := if negb (isEmpty (ref params))
            then set_m_ref r (ref params ++ [QLatin1Char ":"]) else r in
  let out := runCommand (m_directory r) (arguments' (m_parameters r)) in
  let r2 := fold_left read (fst out) r1 in
  exec' r =
  match snd out with
  | TerminatedAbnormally | StartFailed | Hang =>
      set_m_fi r2 (reportCanceled (m_fi r2))
  | Finished | FinishedError => r2
  end.
Proof.
  cbv zeta. unfold exec.
  destruct (negb (isEmpty (ref (extensionParameters (m_parameters r)))));
    cbn [m_directory m_parameters set_m_ref];
    destruct (runCommand _ _) as [out resp]; reflexivity.
Qed.

(** C1 (amended).  When the process terminates abnormally, fails to start or
    hangs, the search ends as Canceled (no error is reported).  When the
    process finishes, with or without a non-zero exit status, and the caller
    does not cancel, the search ends as Completed.  Without output no record
    is published. *)
Theorem exec_outcome (fi : FutureInterface) (parameters : FileFindParameters) :
  let resp := snd (response' parameters) in
  let fi' := executeSearch' fi parameters in
  (resp = TerminatedAbnormally \/ resp = StartFailed \/ resp = Hang ->
   outcome fi' = Some Canceled) /\
  (resp = Finished \/ resp = FinishedError ->
   quiet fi -> outcome fi' = Some Completed) /\
  (fst (response' parameters) = [] -> results fi' = results fi).
Proof.
  cbv zeta. unfold executeSearch, run, response.
  rewrite exec_unfold. cbv zeta. cbn [m_directory m_parameters].
  set (out := runCommand (additionalParameters parameters) (arguments' parameters)).
  set (r1 := if negb (isEmpty (ref (extensionParameters parameters)))
             then _ else _).
  assert (E1 : m_fi r1 = fi) by (unfold r1; destruct (negb _); reflexivity).
  split; [|split].
  - intros [->|[->| ->]]; reflexivity.
  - intros Hr Q.
    destruct (fold_read_stays_quiet (fst out) r1) as (Qc & _);
      [now rewrite E1|].
    unfold outcome.
    destruct Hr as [-> | ->]; cbn [reportFinished finished canceled negb];
      now rewrite Qc.
  - intros ->. cbn [fold_left].
    destruct (snd out); cbn; now rewrite E1.
Qed.

(** C7.  A scope reference that is not empty is remembered with a ":"
    appended, and a file path that starts with what is remembered is
    reported without it.  With the reference "main" the path
    [main:src/a.txt] becomes [src/a.txt]; like every path it is reported
    below the working directory. *)
Theorem processLine_strips_ref_prefix :
  (forall r : GitGrepRunner,
      ref (extensionParameters (m_parameters r)) <> [] ->
      m_ref (exec' r)
      = ref (extensionParameters (m_parameters r)) ++ [QLatin1Char ":"]) /\
  (forall m_directory m_ref line rest : QString,
      m_ref <> [] -> rawFilePath line = m_ref ++ rest ->
      strippedFilePath m_ref line = rest /\
      Forall (fun r => fileName r = m_directory ++ QLatin1Char "/" :: rest)
             (processLine m_directory m_ref line [])) /\
  (rawFilePath mainLine = QLatin1String "main:src/a.txt" /\
   strippedFilePath (QLatin1String "main" ++ [QLatin1Char ":"]) mainLine
   = QLatin1String "src/a.txt" /\
   forall m_directory : QString,
     processLine m_directory (QLatin1String "main" ++ [QLatin1Char ":"]) mainLine []
     = [mkFileSearchResult
          (m_directory ++ QLatin1Char "/" :: QLatin1String "src/a.txt")
          10 (QLatin1String "foo BAR baz") 4 3]).
Proof.
  split; [|split].
  - intros r Hne. rewrite exec_unfold. cbv zeta.
    destruct (ref (extensionParameters (m_parameters r))) as [|c rf] eqn:E;
      [contradiction|]. cbn [isEmpty negb].
    set (r1 := set_m_ref r _). set (out := runCommand _ _).
    destruct (fold_read_fields (fst out) r1) as [_ Er].
    destruct (snd out); cbn [m_ref set_m_fi]; rewrite Er; reflexivity.
  - intros m_directory m_ref line rest Hne Hp.
    assert (Es : strippedFilePath m_ref line = rest).
    { unfold strippedFilePath. rewrite Hp.
      destruct m_ref as [|c m]; [contradiction|]. cbn [isEmpty negb andb].
      replace (startsWith ((c :: m) ++ rest) (c :: m)) with true
        by (symmetry; apply startsWith_iff; now exists rest).
      unfold remove0. apply skipn_size_app. }
    split; [exact Es|].
    unfold processLine. destruct (isEmpty line); [constructor|].
    destruct (scanMatches _ _ _) as [text matches]. cbn [app].
    apply Forall_map, Forall_forall. intros span _. cbn. now rewrite Es.
  - split; [by_computation|]. split; [by_computation|].
    intros m_directory. by_computation.
Qed.

End ExecClaims.

Section ArgumentsClaims.

Variables FindCaseSensitively FindWholeWords FindRegularExpression : Z.

Local Abbreviation arguments' :=
  (arguments FindCaseSensitively FindWholeWords FindRegularExpression).
Local Abbreviation caseSensitive' := (caseSensitive FindCaseSensitively).
Local Abbreviation wholeWord' := (wholeWord FindWholeWords).
Local Abbreviation isRegex' := (isRegex FindRegularExpression).

(** C9.  The arguments are: the fixed options; the switches, with "-i"
    exactly when the search is not case sensitive, "-w" exactly for whole
    words, "-P" for a regular expression and "-F" otherwise; the pattern; the
    scope reference when it is not empty; "--"; the file name filters. *)
Theorem arguments_flags (parameters : FileFindParameters) :
  exists switches : QStringList,
    arguments' parameters
    = [QLatin1String "-c"; QLatin1String "color.grep.match=bold red";
       QLatin1String "grep"; QLatin1String "-zn"; QLatin1String "--color=always"]
        ++ switches
        ++ [text parameters]
        ++ (if isEmpty (ref (extensionParameters parameters)) then []
            else [ref (extensionParameters parameters)])
        ++ [QLatin1String "--"]
        ++ nameFilters parameters /\
    (In (QLatin1String "-i") switches <-> caseSensitive' parameters = false) /\
    (In (QLatin1String "-w") switches <-> wholeWord' parameters = true) /\
    (In (QLatin1String "-P") switches <-> isRegex' parameters = true) /\
    (In (QLatin1String "-F") switches <-> isRegex' parameters = false) /\
    (forall s, In s switches ->
               In s [QLatin1String "-i"; QLatin1String "-w"; QLatin1String "-P";
                     QLatin1String "-F"]).
Proof.
  exists ((if caseSensitive' parameters then [] else [QLatin1String "-i"])
            ++ (if wholeWord' parameters then [QLatin1String "-w"] else [])
            ++ [if isRegex' parameters then QLatin1String "-P"
                else QLatin1String "-F"]).
  unfold arguments, caseSensitive, wholeWord, isRegex.
  destruct (testFlag (flags parameters) FindCaseSensitively);
    destruct (testFlag (flags parameters) FindWholeWords);
    destruct (testFlag (flags parameters) FindRegularExpression);
    destruct (isEmpty (ref (extensionParameters parameters)));
    cbn [negb app];
    (split; [reflexivity|]);
    repeat split; intros H; try reflexivity; try discriminate H;
      cbn [In] in *; try tauto;
      repeat (destruct H as [H|H]; try discriminate H; try tauto).
Qed.

End ArgumentsClaims.

(** C1 at a process that hangs and at one that prints three lines and exits
    with an error status. *)
Lemma exec_outcome_witness :
  (snd (response 2 4 8 (silentProcess Hang) noParameters) = Hang /\
   outcome (executeSearch 2 4 8 (silentProcess Hang) freshFuture noParameters)
   = Some Canceled) /\
  (snd (response 2 4 8 (printingProcess scenarioChunks FinishedError) noParameters)
   = FinishedError /\
   quiet freshFuture /\
   outcome (executeSearch 2 4 8 (printingProcess scenarioChunks FinishedError)
                          freshFuture noParameters)
   = Some Completed).
Proof.
  split.
  - split; [reflexivity|].
    exact (proj1 (exec_outcome 2 4 8 (silentProcess Hang) freshFuture noParameters)
                 (or_intror (or_intror eq_refl))).
  - assert (Q : quiet freshFuture) by (split; reflexivity).
    split; [reflexivity|]. split; [exact Q|].
    exact (proj1 (proj2 (exec_outcome 2 4 8
                           (printingProcess scenarioChunks FinishedError)
                           freshFuture noParameters))
                 (or_intror eq_refl) Q).
Defined.

(** C1 fails as stated: abnormal termination, a failed start and a hang end
    the search as Canceled, not as Completed. *)
Lemma abnormal_exit_is_canceled :
  (outcome (executeSearch 2 4 8 (silentProcess TerminatedAbnormally)
                          freshFuture noParameters) = Some Canceled /\
   outcome (executeSearch 2 4 8 (silentProcess StartFailed)
                          freshFuture noParameters) = Some Canceled /\
   outcome (executeSearch 2 4 8 (silentProcess Hang)
                          freshFuture noParameters) = Some Canceled) /\
  Some Canceled <> Some Completed.
Proof.
  split; [repeat split; by_computation | discriminate].
Qed.

(** C7 at a search in the reference "main" of "/repo". *)
Lemma processLine_strips_ref_prefix_witness :
  (ref (extensionParameters (m_parameters mainRunner)) <> [] /\
   m_ref (exec 2 4 8 (printingProcess [mainLine ++ [LF]] Finished) mainRunner)
   = QLatin1String "main:") /\
  (QLatin1String "main:" <> [] /\
   rawFilePath mainLine = QLatin1String "main:" ++ QLatin1String "src/a.txt" /\
   strippedFilePath (QLatin1String "main:") mainLine = QLatin1String "src/a.txt") /\
  publishedRecords
    (m_fi (exec 2 4 8 (printingProcess [mainLine ++ [LF]] Finished) mainRunner))
  = [mkFileSearchResult (QLatin1String "/repo/src/a.txt") 10
                        (QLatin1String "foo BAR baz") 4 3].
Proof.
  assert (H1 : ref (extensionParameters (m_parameters mainRunner)) <> [])
    by discriminate.
  assert (H2 : QLatin1String "main:" <> []) by discriminate.
  assert (H3 : rawFilePath mainLine
               = QLatin1String "main:" ++ QLatin1String "src/a.txt")
    by by_computation.
  split; [|split].
  - split; [exact H1|].
    exact (proj1 (processLine_strips_ref_prefix 2 4 8
                    (printingProcess [mainLine ++ [LF]] Finished))
                 mainRunner H1).
  - split; [exact H2|]. split; [exact H3|].
    exact (proj1 (proj1 (proj2 (processLine_strips_ref_prefix 2 4 8
                                  (printingProcess [] Finished)))
                        (QLatin1String "/repo") (QLatin1String "main:") mainLine
                        (QLatin1String "src/a.txt") H2 H3)).
  - by_computation.
Defined.

(** ** Opening a result at its revision: the claim *)

Section OpenEditorClaims.

Variable fromNativeSeparators : QString -> QString.
Variable relativeFilePath : QString -> QString -> QString.
Variable synchronousShow : QString -> QString -> option QByteArray.
Variable readFileUTF8 : QString -> option QByteArray.
Variable gitShowTitle : QString -> QString -> QString.

Local Abbreviation openEditor' :=
  (openEditor fromNativeSeparators relativeFilePath synchronousShow readFileUTF8
              gitShowTitle).

Local Abbreviation revisionContent' :=
  (revisionContent fromNativeSeparators relativeFilePath synchronousShow).

Lemma byteArray_eqb_eq (a b : QByteArray) : byteArray_eqb a b = true <-> a = b.
Proof.
  unfold byteArray_eqb. destruct (list_eq_dec Byte.byte_eq_dec a b).
  - tauto.
  - split; [discriminate | contradiction].
Qed.

(** C8 (amended).  For an enabled search in a revision whose content could
    be retrieved and is not empty: no editor is returned (the file itself is
    to be opened) exactly when the file on disk can be read and is
    byte-identical to that content; otherwise a temporary editor on the
    revision's content is returned.  When the retrieval fails or the content
    is empty no editor is returned either. *)
Theorem openEditor_live_file (item : SearchResultItem)
        (parameters : FileFindParameters) (first : QString) (others : QStringList) :
  isEnabled (extensionParameters parameters) = true ->
  ref (extensionParameters parameters) <> [] ->
  path item = first :: others ->
  (forall content : QByteArray,
      revisionContent' parameters first = Some content -> content <> [] ->
      (openEditor' item parameters = None
       <-> readFileUTF8 (fromNativeSeparators first) = Some content) /\
      (readFileUTF8 (fromNativeSeparators first) <> Some content ->
       exists editor,
         openEditor' item parameters = Some editor /\
         contents editor = content /\ temporary editor = true /\
         gotoLine editor = (item_lineNumber item, textMarkPos item))) /\
  (revisionContent' parameters first = Some [] ->
   openEditor' item parameters = None) /\
  (revisionContent' parameters first = None ->
   openEditor' item parameters = None).
Proof.
  intros He Hr Hp. unfold revisionContent, openEditor. cbv zeta.
  rewrite Hp, He.
  destruct (ref (extensionParameters parameters)) as [|c rf] eqn:E;
    [contradiction|]. cbn [negb isEmpty orb].
  split; [|split].
  - intros content -> Hne.
    destruct content as [|b content]; [contradiction|]. cbn [isEmpty].
    destruct (readFileUTF8 (fromNativeSeparators first)) as [fileContent|].
    + destruct (byteArray_eqb fileContent (b :: content)) eqn:B.
      * apply byteArray_eqb_eq in B. subst fileContent.
        split; [tauto|]. intros H. contradiction.
      * assert (fileContent <> b :: content)
          by (intros H; apply byteArray_eqb_eq in H; congruence).
        split; [split; [discriminate | congruence]|].
        intros _. eexists. repeat split.
    + split; [split; discriminate|]. intros _. eexists. repeat split.
  - intros ->. reflexivity.
  - intros ->. reflexivity.
Qed.

End OpenEditorClaims.

(** C8 at a file equal to its revision and at one that differs from it. *)
Lemma openEditor_live_file_witness :
  (isEnabled (extensionParameters mainParameters) = true /\
   ref (extensionParameters mainParameters) <> [] /\
   path mainItem = [QLatin1String "/repo/src/a.txt"]) /\
  (openEditor sameSeparators belowRepo (fun _ _ => Some oldBytes)
              (fun _ => Some oldBytes) plainTitle mainItem mainParameters = None
   <-> Some oldBytes = Some oldBytes) /\
  (openEditor sameSeparators belowRepo (fun _ _ => Some oldBytes)
              (fun _ => Some newBytes) plainTitle mainItem mainParameters = None
   <-> Some newBytes = Some oldBytes).
Proof.
  assert (H1 : isEnabled (extensionParameters mainParameters) = true)
    by reflexivity.
  assert (H2 : ref (extensionParameters mainParameters) <> []) by discriminate.
  assert (H3 : path mainItem = [QLatin1String "/repo/src/a.txt"]) by reflexivity.
  assert (H4 : oldBytes <> []) by discriminate.
  split; [exact (conj H1 (conj H2 H3))|]. split.
  - exact (proj1 (proj1 (openEditor_live_file sameSeparators belowRepo
                           (fun _ _ => Some oldBytes) (fun _ => Some oldBytes)
                           plainTitle mainItem mainParameters _ _ H1 H2 H3)
                        oldBytes eq_refl H4)).
  - exact (proj1 (proj1 (openEditor_live_file sameSeparators belowRepo
                           (fun _ _ => Some oldBytes) (fun _ => Some newBytes)
                           plainTitle mainItem mainParameters _ _ H1 H2 H3)
                        oldBytes eq_refl H4)).
Defined.

(** C8 fails as stated: when the revision's content is empty no editor is
    returned although the file on disk differs from it, and likewise when
    the content cannot be retrieved. *)
Lemma openEditor_empty_content :
  (openEditor sameSeparators belowRepo (fun _ _ => Some []) (fun _ => Some newBytes)
              plainTitle mainItem mainParameters = None /\
   Some newBytes <> Some (@nil byte)) /\
  openEditor sameSeparators belowRepo (fun _ _ => None) (fun _ => Some newBytes)
             plainTitle mainItem mainParameters = None.
Proof.
  split; [split; [reflexivity | discriminate] | reflexivity].
Qed.

(** ** Every line: what [processLine] guarantees without any assumption *)

Section EveryLine.

Variables m_directory m_ref : QString.

Lemma size_mid_exact (s : QString) (position n : Z) :
  0 <= position -> 0 <= n -> position + n <= size s ->
  size (mid s position n) = n.
Proof.
  intros Hp Hn Hs. unfold mid. cbv zeta.
  rewrite (proj2 (Z.ltb_ge (size s) position)) by lia.
  rewrite (proj2 (Z.ltb_ge position 0)) by lia.
  rewrite (proj2 (Z.ltb_ge n 0)) by lia. cbn [orb].
  rewrite (proj2 (Z.ltb_ge (size s - position) n)) by lia.
  unfold size in *. rewrite length_firstn, length_skipn. lia.
Qed.

(** What one pass of the loop does to the sizes. *)
Lemma splice_size (text : QString) :
  let matchStart := indexOf text boldRed 0 in
  let matchTextStart := matchStart + size boldRed in
  let matchEnd := indexOf text resetColor matchTextStart in
  matchStart <> -1 -> matchEnd <> -1 ->
  0 <= matchStart /\ 0 <= matchEnd - matchTextStart /\
  matchStart + (matchEnd - matchTextStart) + 10 <= size text /\
  size (left text matchStart ++ mid text matchTextStart (matchEnd - matchTextStart)
          ++ mid text (matchEnd + size resetColor) (-1)) + 10
  = size text.
Proof.
  intros matchStart matchTextStart matchEnd Hs He.
  destruct (indexOf_range text boldRed 0 (Z.le_refl 0) Hs) as [S0 S1].
  fold matchStart in S0, S1.
  assert (Hb : size boldRed = 7) by reflexivity.
  assert (Hr : size resetColor = 3) by reflexivity.
  assert (Hts : 0 <= matchTextStart) by (unfold matchTextStart; lia).
  destruct (indexOf_range text resetColor matchTextStart Hts He) as [E0 E1].
  fold matchEnd in E0, E1.
  rewrite !size_app, size_left, size_mid_tail, size_mid_exact by lia.
  unfold matchTextStart in *. lia.
Qed.

(** The loop on any text: it only appends matches, every pair it splices
    out shortens the text by the ten units of the two markers, and every
    match lies in the text as it was when the match was found. *)
Lemma scanMatches_any (fuel : nat) :
  forall (text : QString) (matches : list (Z * Z)),
    exists new : list (Z * Z),
      snd (scanMatches fuel text matches) = matches ++ new /\
      size (fst (scanMatches fuel text matches)) + 10 * Z.of_nat (length new)
      = size text /\
      Forall (fun span => 0 <= fst span /\ 0 <= snd span /\
                          fst span + snd span + 10 <= size text) new.
Proof.
  induction fuel as [|fuel IH]; intros text matches.
  - exists []. cbn. rewrite app_nil_r. repeat split; [lia | constructor].
  - rewrite scanMatches_S. cbv zeta.
    destruct (indexOf text boldRed 0 =? -1) eqn:Es.
    { exists []. cbn. rewrite app_nil_r. repeat split; [lia | constructor]. }
    destruct (indexOf text resetColor (indexOf text boldRed 0 + size boldRed) =? -1)
      eqn:Ee.
    { exists []. cbn. rewrite app_nil_r. repeat split; [lia | constructor]. }
    apply Z.eqb_neq in Es, Ee.
    destruct (splice_size text Es Ee) as (B1 & B2 & B3 & B4).
    set (matchStart := indexOf text boldRed 0) in *.
    set (matchEnd := indexOf text resetColor (matchStart + size boldRed)) in *.
    set (text1 := left text matchStart ++ _ ++ _) in *.
    destruct (IH text1 (matches ++ [(matchStart, matchEnd - (matchStart + size boldRed))]))
      as (new & E1 & E2 & E3).
    exists ((matchStart, matchEnd - (matchStart + size boldRed)) :: new).
    rewrite E1, <- app_assoc. split; [reflexivity|]. split.
    + cbn [length]. lia.
    + constructor; [cbn [fst snd]; lia|].
      eapply Forall_impl; [|exact E3]. cbn. intros span. lia.
Qed.

(** X1.  A line whose text has no start marker yields no record: the tool's
    lines without a highlighted match, and empty lines, are dropped. *)
Theorem processLine_without_start_marker (line : QString)
        (resultList : FileSearchResultList) :
  ~ contains boldRed (rawText line) ->
  processLine m_directory m_ref line resultList = resultList.
Proof.
  intros H. unfold processLine. destruct (isEmpty line); [reflexivity|].
  rewrite scanMatches_done by exact H. cbn [map]. apply app_nil_r.
Qed.

(** X2.  On every line, each record costs the ten units of one pair of
    markers: the length of the line text that the records carry, plus ten
    times the number of records, is the length of the text as the tool wrote
    it. *)
Theorem processLine_marker_accounting (line : QString) :
  let records := processLine m_directory m_ref line [] in
  Forall (fun r => size (matchingLine r) + 10 * Z.of_nat (length records)
                   = size (rawText line)) records.
Proof.
  cbv zeta. unfold processLine. destruct (isEmpty line); [constructor|].
  destruct (scanMatches_any (S (length (rawText line))) (rawText line) [])
    as (new & E1 & E2 & _).
  destruct (scanMatches _ _ _) as [text matches]. cbn [fst snd app] in *.
  subst matches. rewrite length_map.
  apply Forall_map, Forall_forall. intros span _. cbn. exact E2.
Qed.

(** X3.  On every line, well-formed or not, every record has an offset and
    a length that are not negative, and offset plus length stay at least
    ten units below the length of the text as the tool wrote it. *)
Theorem processLine_offsets_in_raw_text (line : QString) :
  Forall (fun r => 0 <= matchStart r /\ 0 <= matchLength r /\
                   matchStart r + matchLength r + 10 <= size (rawText line))
         (processLine m_directory m_ref line []).
Proof.
  unfold processLine. destruct (isEmpty line); [constructor|].
  destruct (scanMatches_any (S (length (rawText line))) (rawText line) [])
    as (new & E1 & _ & E3).
  destruct (scanMatches _ _ _) as [text matches]. cbn [fst snd app] in *.
  subst matches. apply Forall_map.
  eapply Forall_impl; [|exact E3]. cbn. tauto.
Qed.

(** X4.  On every line the loop runs until no pair is left to splice: the
    line text of a record has no start marker at all, or no end marker after
    its first start marker. *)
Theorem processLine_leaves_no_pair (line : QString) :
  Forall (fun r =>
            indexOf (matchingLine r) boldRed 0 = -1 \/
            indexOf (matchingLine r) resetColor
                    (indexOf (matchingLine r) boldRed 0 + size boldRed) = -1)
         (processLine m_directory m_ref line []).
Proof.
  unfold processLine. destruct (isEmpty line); [constructor|].
  pose proof (scanMatches_exit (S (length (rawText line))) (rawText line) []
                (Nat.lt_succ_diag_r _)) as X.
  cbv zeta in X. destruct (scanMatches _ _ _) as [text matches].
  cbn [fst app] in *. apply Forall_map, Forall_forall. intros span _. exact X.
Qed.

Lemma indexOf_Null_absent (line : QString) (from : Z) :
  ~ In Null line -> indexOf line [Null] from = -1.
Proof.
  intros H. unfold indexOf. cbv zeta.
  destruct (_ || _); [reflexivity|].
  rewrite find_absent; [reflexivity|].
  intros (a & b & E). apply H.
  rewrite <- (firstn_skipn (Z.to_nat (if from <? 0 then from + size line else from))
                           line), E.
  apply in_or_app. right. apply in_or_app. right. now left.
Qed.

Lemma mid_whole (s : QString) : mid s 0 (-1) = s.
Proof. apply (mid_tail [] s). Qed.

(** X5.  A line without the NUL separators is taken whole three times: as
    the file path, as the line-number field and as the text searched for
    markers.  With the first separator only, the path is what stands before
    it, the line-number field is what stands after it, and the text searched
    for markers is again the whole line. *)
Theorem processLine_missing_separators :
  (forall line : QString,
      ~ In Null line ->
      rawFilePath line = line /\ lineNumberField line = line /\
      rawText line = line) /\
  (forall path rest : QString,
      ~ In Null path -> ~ In Null rest ->
      let line := path ++ NUL ++ rest in
      rawFilePath line = path /\ lineNumberField line = rest /\
      rawText line = line).
Proof.
  split.
  - intros line H. unfold rawFilePath, lineNumberField, rawText. cbv zeta.
    rewrite !(indexOf_Null_absent line _ H).
    change (-1 + 1) with 0. change (-1 - -1 - 1) with (-1).
    split; [reflexivity|]. split; apply mid_whole.
  - intros path rest Hp Hr line.
    assert (E1 : indexOf line [Null] 0 = size path).
    { apply indexOf_first; [apply single_unbordered|].
      intros C. now apply Hp, contains_single. }
    assert (E2 : indexOf line [Null] (size path + 1) = -1).
    { change (size path + 1) with (size path + size NUL).
      rewrite <- size_app. unfold line. rewrite app_assoc.
      apply indexOf_absent_from. intros C. now apply Hr, contains_single. }
    unfold rawFilePath, lineNumberField, rawText. cbv zeta. rewrite E1, E2.
    split; [|split].
    + apply left_app.
    + change (size path + 1) with (size path + size NUL).
      rewrite <- size_app. unfold line. rewrite app_assoc.
      pose proof (size_nonneg (path ++ NUL)).
      replace (-1 - size path - 1) with (- (size path + 2)) by lia.
      unfold mid. cbv zeta. rewrite size_app.
      pose proof (size_nonneg rest). pose proof (size_nonneg path).
      rewrite (proj2 (Z.ltb_ge (size (path ++ NUL) + size rest) (size (path ++ NUL))))
        by lia.
      rewrite (proj2 (Z.ltb_ge (size (path ++ NUL)) 0)) by lia.
      rewrite (proj2 (Z.ltb_lt (- (size path + 2)) 0)) by lia. cbn [orb].
      rewrite skipn_size_app.
      replace (size (path ++ NUL) + size rest - size (path ++ NUL))
        with (size rest) by lia.
      unfold size. rewrite Nat2Z.id. apply firstn_all.
    + change (-1 + 1) with 0. apply mid_whole.
Qed.

End EveryLine.

(** ** Every chunk: what [read] guarantees under any schedule *)

Section EveryChunk.

(** While the flag is down at the end of the loop, every line was decoded. *)
Lemma readLoop_uncanceled (dir rf : QString) (fuel : nat) :
  forall (stream : QString) (fi : FutureInterface)
         (resultList : FileSearchResultList),
    canceled (fst (readLoop fuel dir rf stream fi resultList)) = false ->
    snd (readLoop fuel dir rf stream fi resultList)
    = resultList ++ snd (readLoop fuel dir rf stream freshFuture []).
Proof.
  induction fuel as [|fuel IH]; intros stream fi rl.
  - intros _. cbn. now rewrite app_nil_r.
  - rewrite !readLoop_S. destruct (atEnd stream).
    { intros _. cbn. now rewrite app_nil_r. }
    change (isCanceled freshFuture) with (false, freshFuture). cbv iota.
    unfold isCanceled. destruct (canceled (observe fi)) eqn:E.
    { cbn [fst]. congruence. }
    destruct (readLine stream) as [line stream']. intros C.
    rewrite (IH stream' (observe fi) _ C).
    rewrite (readLoop_quiet dir rf fuel stream' freshFuture
               (processLine dir rf line [])) by (split; reflexivity).
    cbn [snd]. now rewrite (processLine_app dir rf line rl), <- app_assoc.
Qed.

Lemma canceled_before_observe (fi : FutureInterface) :
  canceled (observe fi) = false -> canceled fi = false.
Proof.
  intros H. destruct (canceled fi) eqn:E; [|reflexivity].
  destruct (observe_keeps fi) as (_ & _ & Hc). rewrite (Hc E) in H.
  discriminate H.
Qed.

(** X6.  One call of [read] publishes at most one batch, never an empty one
    and never a part of one: either nothing is published, or the one batch
    published holds the records of all lines of the chunk. *)
Theorem read_publishes_whole_batch_or_nothing (r : GitGrepRunner) (chunk : QString) :
  results (m_fi (read r chunk)) = results (m_fi r) \/
  (chunkRecords (m_directory r) (m_ref r) chunk <> [] /\
   results (m_fi (read r chunk))
   = results (m_fi r) ++ [chunkRecords (m_directory r) (m_ref r) chunk]).
Proof.
  unfold read, chunkRecords.
  pose proof (readLoop_keeps (m_directory r) (m_ref r) (length chunk) chunk
                (m_fi r) []) as K.
  pose proof (readLoop_uncanceled (m_directory r) (m_ref r) (length chunk) chunk
                (m_fi r) []) as U.
  destruct (readLoop _ _ _ _ (m_fi r) _) as [fi rl]. cbv zeta in K.
  cbn [fst snd app] in K, U. destruct K as (K1 & _ & _).
  destruct rl as [|x rl]; cbn [isEmpty negb m_fi set_m_fi]; [now left|].
  unfold reportResult. destruct (observe_keeps fi) as (Hr & _ & _).
  destruct (canceled (observe fi)) eqn:E; cbn [orb].
  { left. congruence. }
  destruct (finished (observe fi)); [left; congruence|].
  right. cbn [results]. rewrite Hr, K1.
  rewrite <- (U (canceled_before_observe fi E)). split; [discriminate | reflexivity].
Qed.

Lemma read_finished (r : GitGrepRunner) (chunk : QString) :
  finished (m_fi r) = true ->
  finished (m_fi (read r chunk)) = true /\
  results (m_fi (read r chunk)) = results (m_fi r).
Proof.
  intros F. unfold read.
  pose proof (readLoop_keeps (m_directory r) (m_ref r) (length chunk) chunk
                (m_fi r) []) as K.
  destruct (readLoop _ _ _ _ _ _) as [fi rl]. cbv zeta in K. cbn [fst] in K.
  destruct K as (K1 & K2 & _).
  destruct rl as [|x rl]; cbn [isEmpty negb m_fi set_m_fi]; [split; congruence|].
  unfold reportResult. destruct (observe_keeps fi) as (Hr & Hf & _).
  assert (Fo : finished (observe fi) = true) by congruence.
  rewrite Fo, orb_true_r. split; congruence.
Qed.

Lemma fold_read_frozen (chunks : list QString) :
  forall r : GitGrepRunner,
    canceled (m_fi r) = true \/ finished (m_fi r) = true ->
    results (m_fi (fold_left read chunks r)) = results (m_fi r).
Proof.
  induction chunks as [|c chunks IH]; intros r H; [reflexivity|].
  cbn [fold_left]. destruct H as [C|F].
  - destruct (read_canceled r c C) as [C' R']. rewrite IH; auto.
  - destruct (read_finished r c F) as [F' R']. rewrite IH; auto.
Qed.

(** After a call of [read]: the future is canceled or finished and nothing
    was published, or the records of the whole chunk were published, as a
    batch unless there are none. *)
Lemma read_cases (r : GitGrepRunner) (chunk : QString) :
  ((canceled (m_fi (read r chunk)) = true \/ finished (m_fi (read r chunk)) = true) /\
   results (m_fi (read r chunk)) = results (m_fi r)) \/
  results (m_fi (read r chunk))
  = results (m_fi r)
      ++ filter (fun b => negb (isEmpty b))
                [chunkRecords (m_directory r) (m_ref r) chunk].
Proof.
  unfold read, chunkRecords.
  pose proof (readLoop_keeps (m_directory r) (m_ref r) (length chunk) chunk
                (m_fi r) []) as K.
  pose proof (readLoop_uncanceled (m_directory r) (m_ref r) (length chunk) chunk
                (m_fi r) []) as U.
  destruct (readLoop _ _ _ _ (m_fi r) _) as [fi rl]. cbv zeta in K.
  cbn [fst snd app] in K, U. destruct K as (K1 & _ & _).
  destruct rl as [|x rl]; cbn [isEmpty negb m_fi set_m_fi].
  - destruct (canceled fi) eqn:C; [left; auto|].
    right. rewrite <- (U eq_refl). cbn. now rewrite app_nil_r.
  - unfold reportResult. destruct (observe_keeps fi) as (Hr & _ & _).
    destruct (canceled (observe fi)) eqn:E; cbn [orb].
    { left. split; [auto | congruence]. }
    destruct (finished (observe fi)) eqn:F.
    { left. split; [auto | congruence]. }
    right. cbn [results]. rewrite Hr, K1.
    rewrite <- (U (canceled_before_observe fi E)). reflexivity.
Qed.

(** X7.  Batches are published in the order of the chunks and without gaps:
    what a run of [read] over some chunks adds to the published batches is a
    prefix of the chunks' record lists that are not empty (all of them
    unless the search is canceled or finished on the way). *)
Theorem read_batches_in_chunk_order (chunks : list QString) :
  forall r : GitGrepRunner,
  exists new later : list FileSearchResultList,
    results (m_fi (fold_left read chunks r)) = results (m_fi r) ++ new /\
    filter (fun b => negb (isEmpty b))
           (map (chunkRecords (m_directory r) (m_ref r)) chunks)
    = new ++ later.
Proof.
  induction chunks as [|c chunks IH]; intros r.
  - exists [], []. cbn. now rewrite app_nil_r.
  - cbn [fold_left map].
    destruct (read_cases r c) as [[H R]|R].
    + exists [], (filter (fun b => negb (isEmpty b))
                         (map (chunkRecords (m_directory r) (m_ref r)) (c :: chunks))).
      rewrite (fold_read_frozen chunks (read r c) H), R, app_nil_r.
      split; reflexivity.
    + destruct (IH (read r c)) as (new & later & E1 & E2).
      destruct (read_fields r c) as (Ed & Er & _). rewrite Ed, Er in E2.
      exists (filter (fun b => negb (isEmpty b))
                     [chunkRecords (m_directory r) (m_ref r) c] ++ new), later.
      rewrite E1, R, <- !app_assoc. split; [reflexivity|].
      cbn [filter]. destruct (negb (isEmpty _)); cbn [app]; now rewrite E2.
Qed.

(** X8.  [read] never finishes the search and never cancels it on its own:
    the finished state is as before, and without a cancellation by the
    observer the canceled state is as before too. *)
Theorem read_never_finishes_or_cancels (r : GitGrepRunner) (chunk : QString) :
  finished (m_fi (read r chunk)) = finished (m_fi r) /\
  (cancelRequest (m_fi r) = None ->
   canceled (m_fi (read r chunk)) = canceled (m_fi r) /\
   cancelRequest (m_fi (read r chunk)) = None).
Proof.
  split.
  - unfold read.
    pose proof (readLoop_keeps (m_directory r) (m_ref r) (length chunk) chunk
                  (m_fi r) []) as K.
    destruct (readLoop _ _ _ _ _ _) as [fi rl]. cbv zeta in K. cbn [fst] in K.
    destruct K as (_ & K2 & _).
    destruct rl as [|x rl]; cbn [isEmpty negb m_fi set_m_fi]; [exact K2|].
    destruct (reportResult_keeps fi (x :: rl)) as (-> & _). exact K2.
  - intros N. destruct (canceled (m_fi r)) eqn:C.
    + unfold read.
      pose proof (readLoop_canceled (m_directory r) (m_ref r) (length chunk)
                    chunk (m_fi r) [] C) as E.
      destruct chunk as [|c chunk]; [cbn; auto|].
      change (length (c :: chunk)) with (S (length chunk)) in *.
      rewrite readLoop_S in *. change (atEnd (c :: chunk)) with false in *.
      cbv iota in *. unfold isCanceled, observe in *. rewrite N, C in *.
      cbn [isEmpty negb m_fi set_m_fi]. auto.
    + destruct (read_stays_quiet r chunk (conj C N)) as [C' N']. auto.
Qed.

Lemma readLine_crlf (line rest : QString) :
  ~ In LF line -> ~ In CR line ->
  readLine (line ++ CR :: LF :: rest) = (line, rest).
Proof.
  induction line as [|ch l IH]; intros HL HC; [reflexivity|].
  assert (E1 : N.eqb ch LF = false)
    by (apply N.eqb_neq; intros ->; apply HL; now left).
  assert (E2 : N.eqb ch CR = false)
    by (apply N.eqb_neq; intros ->; apply HC; now left).
  assert (IH' : readLine (l ++ CR :: LF :: rest) = (l, rest))
    by (apply IH; intros H; [apply HL | apply HC]; now right).
  change ((ch :: l) ++ CR :: LF :: rest) with (ch :: (l ++ CR :: LF :: rest)).
  destruct (l ++ CR :: LF :: rest) as [|ch' x] eqn:E.
  - destruct l; discriminate E.
  - rewrite readLine_cons2, E1, E2, IH'. reflexivity.
Qed.

Lemma readLine_last_line (line : QString) :
  ~ In LF line -> ~ In CR line ->
  line <> [] -> readLine line = (line, []) /\ readLine (line ++ [CR]) = (line, []).
Proof.
  induction line as [|ch l IH]; intros HL HC Hne; [contradiction|].
  assert (E1 : N.eqb ch LF = false)
    by (apply N.eqb_neq; intros ->; apply HL; now left).
  assert (E2 : N.eqb ch CR = false)
    by (apply N.eqb_neq; intros ->; apply HC; now left).
  destruct l as [|ch' l'].
  - cbn [app readLine]. rewrite E1, E2. cbn [andb]. split; reflexivity.
  - destruct IH as [IH1 IH2];
      [intros H; apply HL; now right | intros H; apply HC; now right
      | discriminate |].
    change ((ch :: ch' :: l') ++ [CR]) with (ch :: ch' :: (l' ++ [CR])).
    rewrite !readLine_cons2, E1, E2. cbn [andb].
    change (ch' :: l' ++ [CR]) with ((ch' :: l') ++ [CR]).
    rewrite IH1, IH2. split; reflexivity.
Qed.

(** X9.  Line ends written as carriage return and line feed decode like a
    bare line feed: the chunk yields the same records. *)
Theorem chunkRecords_crlf (m_directory m_ref line rest : QString) :
  ~ In LF line -> ~ In CR line ->
  chunkRecords m_directory m_ref (line ++ CR :: LF :: rest)
  = chunkRecords m_directory m_ref (line ++ LF :: rest).
Proof.
  intros HL HC.
  rewrite (chunkRecords_step _ _ (line ++ CR :: LF :: rest))
    by (destruct line; discriminate).
  rewrite (chunkRecords_step _ _ (line ++ LF :: rest))
    by (destruct line; discriminate).
  now rewrite (readLine_crlf line rest HL HC), (readLine_line line rest HL HC).
Qed.

(** X10.  The end of the chunk ends its last line: a chunk that is one line
    without a line end yields the records of that line, and a carriage
    return at the very end of the chunk is not part of the line. *)
Theorem chunkRecords_unterminated_line (m_directory m_ref line : QString) :
  ~ In LF line -> ~ In CR line ->
  chunkRecords m_directory m_ref line = processLine m_directory m_ref line [] /\
  chunkRecords m_directory m_ref (line ++ [CR])
  = processLine m_directory m_ref line [].
Proof.
  intros HL HC. destruct line as [|c l]; [split; reflexivity|].
  destruct (readLine_last_line (c :: l) HL HC) as [E1 E2]; [discriminate|].
  rewrite (chunkRecords_step _ _ (c :: l)) by discriminate.
  rewrite (chunkRecords_step _ _ ((c :: l) ++ [CR])) by discriminate.
  rewrite E1, E2. cbn [fst snd]. change (chunkRecords m_directory m_ref []) with
    (@nil FileSearchResult). now rewrite app_nil_r.
Qed.

End EveryChunk.

(** ** The whole run *)

Section EveryRun.

Variables FindCaseSensitively FindWholeWords FindRegularExpression : Z.
Variable runCommand : QString -> QStringList -> list QString * Result.

Local Abbreviation exec' :=
  (exec FindCaseSensitively FindWholeWords FindRegularExpression runCommand).
Local Abbreviation run' :=
  (run FindCaseSensitively FindWholeWords FindRegularExpression runCommand).
Local Abbreviation executeSearch' :=
  (executeSearch FindCaseSensitively FindWholeWords FindRegularExpression
                 runCommand).
Local Abbreviation response' :=
  (response FindCaseSensitively FindWholeWords FindRegularExpression runCommand).

(** X11.  While nobody cancels, a run publishes exactly the records of the
    chunks the process delivers, in order, whatever the result of the process
    is -- what was published before an abnormal end stays published.  The
    lines are decoded with the reference and ":" as the prefix to strip when
    a reference is given, and with no prefix otherwise. *)
Theorem run_publishes_chunk_records (fi : FutureInterface)
        (parameters : FileFindParameters) :
  quiet fi -> finished fi = false ->
  let rf := ref (extensionParameters parameters) in
  let prefix := if isEmpty rf then [] else rf ++ [QLatin1Char ":"] in
  publishedRecords (run' fi parameters)
  = publishedRecords fi
      ++ concat (map (chunkRecords (additionalParameters parameters) prefix)
                     (fst (response' parameters))).
Proof.
  intros Q F. cbv zeta. unfold run, response.
  rewrite exec_unfold. cbv zeta. cbn [m_directory m_parameters].
  set (out := runCommand (additionalParameters parameters) _).
  set (r1 := if negb (isEmpty (ref (extensionParameters parameters)))
             then _ else _).
  assert (E1 : m_fi r1 = fi) by (unfold r1; destruct (negb _); reflexivity).
  assert (E2 : m_directory r1 = additionalParameters parameters)
    by (unfold r1; destruct (negb _); reflexivity).
  assert (E3 : m_ref r1
               = if isEmpty (ref (extensionParameters parameters)) then []
                 else ref (extensionParameters parameters) ++ [QLatin1Char ":"])
    by (unfold r1; destruct (isEmpty _); reflexivity).
  destruct (fold_read_quiet (fst out) r1) as (_ & _ & P);
    [now rewrite E1 | now rewrite E1 |].
  rewrite E1, E2, E3 in P.
  destruct (snd out); cbn [m_fi set_m_fi]; exact P.
Qed.

Lemma fold_read_stays_canceled (chunks : list QString) :
  forall r : GitGrepRunner,
    canceled (m_fi r) = true ->
    canceled (m_fi (fold_left read chunks r)) = true.
Proof.
  induction chunks as [|c chunks IH]; intros r H; [exact H|].
  cbn [fold_left]. apply IH. now destruct (read_canceled r c H).
Qed.

(** X12.  A search that is canceled before it starts publishes nothing,
    whatever the process delivers, and ends as Canceled. *)
Theorem executeSearch_canceled_before_start (fi : FutureInterface)
        (parameters : FileFindParameters) :
  canceled fi = true ->
  results (executeSearch' fi parameters) = results fi /\
  outcome (executeSearch' fi parameters) = Some Canceled.
Proof.
  intros C. unfold executeSearch, run. rewrite exec_unfold. cbv zeta.
  cbn [m_directory m_parameters].
  set (out := runCommand (additionalParameters parameters) _).
  set (r1 := if negb (isEmpty (ref (extensionParameters parameters)))
             then _ else _).
  assert (E1 : m_fi r1 = fi) by (unfold r1; destruct (negb _); reflexivity).
  assert (C1 : canceled (m_fi r1) = true) by (rewrite E1; exact C).
  pose proof (fold_read_frozen (fst out) r1 (or_introl C1)) as R.
  rewrite E1 in R.
  pose proof (fold_read_stays_canceled (fst out) r1 C1) as C'.
  unfold outcome.
  destruct (snd out); cbn [m_fi set_m_fi reportFinished reportCanceled results
                            finished canceled negb];
    rewrite ?C'; auto.
Qed.

End EveryRun.

(** ** Opening a result: when an editor is returned *)

Section EveryEditor.

Variable fromNativeSeparators : QString -> QString.
Variable relativeFilePath : QString -> QString -> QString.
Variable synchronousShow : QString -> QString -> option QByteArray.
Variable readFileUTF8 : QString -> option QByteArray.
Variable gitShowTitle : QString -> QString -> QString.

Local Abbreviation openEditor' :=
  (openEditor fromNativeSeparators relativeFilePath synchronousShow readFileUTF8
              gitShowTitle).
Local Abbreviation revisionContent' :=
  (revisionContent fromNativeSeparators relativeFilePath synchronousShow).

(** X13.  An editor is only ever opened on the content of the revision, and
    only when that content is not empty and the file on disk is not the
    same: the editor is temporary, shows the retrieved content, carries the
    title made of reference and relative path, and stands at the line and
    column of the item. *)
Theorem openEditor_opens_only_differing_revision (item : SearchResultItem)
        (parameters : FileFindParameters) (editor : IEditor) :
  openEditor' item parameters = Some editor ->
  exists (first : QString) (others : QStringList),
    path item = first :: others /\
    isEnabled (extensionParameters parameters) = true /\
    ref (extensionParameters parameters) <> [] /\
    revisionContent' parameters first = Some (contents editor) /\
    contents editor <> [] /\
    readFileUTF8 (fromNativeSeparators first) <> Some (contents editor) /\
    temporary editor = true /\
    gotoLine editor = (item_lineNumber item, textMarkPos item) /\
    title editor
    = gitShowTitle (ref (extensionParameters parameters))
                   (relativeFilePath (additionalParameters parameters)
                                     (fromNativeSeparators first)).
Proof.
  unfold openEditor, revisionContent. cbv zeta.
  destruct (path item) as [|first others]; [discriminate|].
  destruct (isEnabled (extensionParameters parameters)); [|discriminate].
  destruct (ref (extensionParameters parameters)) as [|c rf] eqn:E;
    [discriminate|]. cbn [negb isEmpty orb].
  destruct (synchronousShow _ _) as [content|] eqn:Es; [|discriminate].
  destruct content as [|b content]; [discriminate|]. cbn [isEmpty].
  intros H. exists first, others.
  destruct (readFileUTF8 (fromNativeSeparators first)) as [fileContent|] eqn:Er.
  - destruct (byteArray_eqb fileContent (b :: content)) eqn:B; [discriminate|].
    injection H as <-. cbn [contents temporary gotoLine title].
    repeat split; try discriminate; try exact Es.
    intros [= ->]. assert (byteArray_eqb (b :: content) (b :: content) = true)
      by now apply byteArray_eqb_eq. congruence.
  - injection H as <-. cbn [contents temporary gotoLine title].
    repeat split; try discriminate; exact Es.
Qed.

End EveryEditor.

(** ** The extension and its settings *)

Section Settings.

Lemma QString_eqb_eq (a b : QString) : QString_eqb a b = true <-> a = b.
Proof.
  revert b; induction a as [|c a IH]; intros [|d b]; cbn [QString_eqb];
    try (split; [discriminate | discriminate]); [tauto|].
  rewrite andb_true_iff, N.eqb_eq, IH. split.
  - intros [-> ->]. reflexivity.
  - intros [= -> ->]. auto.
Qed.

Lemma value_setValue_same (settings : QSettings) (key : QString) (v d : QVariant) :
  value (setValue settings key v) key d = v.
Proof.
  cbn [setValue value]. now rewrite (proj2 (QString_eqb_eq key key) eq_refl).
Qed.

Lemma value_setValue_other (settings : QSettings) (key key' : QString)
      (v d : QVariant) :
  key <> key' -> value (setValue settings key v) key' d = value settings key' d.
Proof.
  intros H. cbn [setValue value].
  destruct (QString_eqb key key') eqn:E; [|reflexivity].
  apply QString_eqb_eq in E. contradiction.
Qed.

(** X14.  Settings round trip: reading back what [writeSettings] wrote
    restores the check box and the reference of the widgets that were
    written, whatever the settings held before and whatever the reading
    widgets showed; reading never enables or disables the extension's
    widget.  So the parameters of the search are the same again. *)
Theorem readSettings_writeSettings (g g0 : GitGrep) (settings : QSettings) :
  (length (m_treeLineEdit g) <= maxLength)%nat ->
  let g' := readSettings g0 (writeSettings g settings) in
  m_enabledCheckBox g' = m_enabledCheckBox g /\
  m_treeLineEdit g' = m_treeLineEdit g /\
  m_widget g' = m_widget g0 /\
  (m_widget g0 = m_widget g -> parameters g' = parameters g).
Proof.
  intros L g'.
  assert (E1 : m_enabledCheckBox g' = m_enabledCheckBox g).
  { unfold g', readSettings, writeSettings. cbn [m_enabledCheckBox].
    rewrite value_setValue_other by discriminate.
    now rewrite value_setValue_same. }
  assert (E2 : m_treeLineEdit g' = m_treeLineEdit g).
  { unfold g', readSettings, writeSettings. cbn [m_treeLineEdit].
    rewrite value_setValue_same. cbn [toString]. unfold setText.
    now apply firstn_all2. }
  repeat split; try assumption.
  intros E3. unfold parameters, GitGrep_isEnabled. rewrite E1, E2.
  now rewrite <- E3.
Qed.

(** X15.  Settings that hold neither key give the defaults: the check box
    is cleared and the reference is empty. *)
Theorem readSettings_defaults (g : GitGrep) (settings : QSettings) :
  Forall (fun entry => fst entry <> EnableGitGrep /\ fst entry <> GitGrepRef)
         settings ->
  m_enabledCheckBox (readSettings g settings) = false /\
  m_treeLineEdit (readSettings g settings) = [] /\
  isEnabled (parameters (readSettings g settings)) = false.
Proof.
  intros H.
  assert (V : forall key d, (key = EnableGitGrep \/ key = GitGrepRef) ->
                            value settings key d = d).
  { intros key d Hk. induction H as [|[k v] rest [H1 H2] _ IH]; [reflexivity|].
    cbn [value]. destruct (QString_eqb k key) eqn:E; [|exact IH].
    apply QString_eqb_eq in E. cbn [fst] in *. destruct Hk; congruence. }
  unfold readSettings, parameters, GitGrep_isEnabled.
  cbn [m_enabledCheckBox m_treeLineEdit m_widget isEnabled].
  rewrite !V by auto. cbn. now rewrite andb_false_r.
Qed.

(** X16.  [writeSettings] touches its two keys only, and a later write
    replaces an earlier one: every other key reads as before, and after two
    writes every key reads as after the second write alone. *)
Theorem writeSettings_overwrites (g g1 : GitGrep) (settings : QSettings) :
  (forall (key : QString) (d : QVariant),
      key <> EnableGitGrep -> key <> GitGrepRef ->
      value (writeSettings g settings) key d = value settings key d) /\
  (forall (key : QString) (d : QVariant),
      value (writeSettings g (writeSettings g1 settings)) key d
      = value (writeSettings g settings) key d).
Proof.
  split.
  - intros key d H1 H2. unfold writeSettings.
    rewrite !value_setValue_other by congruence. reflexivity.
  - intros key d. unfold writeSettings, setValue. cbn [value].
    destruct (QString_eqb GitGrepRef key); [reflexivity|].
    destruct (QString_eqb EnableGitGrep key); reflexivity.
Qed.

End Settings.

(** ** The properties above on concrete inputs *)

(** X1 at a line of the tool without a highlighted match. *)
Lemma processLine_without_start_marker_witness :
  ~ contains boldRed (rawText plainLine) /\
  processLine (QLatin1String "/repo") [] plainLine [scenarioRecord]
  = [scenarioRecord].
Proof.
  assert (H : ~ contains boldRed (rawText plainLine))
    by (apply not_contains_find; by_computation).
  split; [exact H|].
  exact (processLine_without_start_marker (QLatin1String "/repo") [] plainLine
           [scenarioRecord] H).
Defined.

(** X5 at a line without a separator and at a line with one. *)
Lemma processLine_missing_separators_witness :
  (~ In Null (QLatin1String "abcd") /\
   rawText (QLatin1String "abcd") = QLatin1String "abcd") /\
  ((~ In Null (QLatin1String "ab") /\ ~ In Null (QLatin1String "cd")) /\
   lineNumberField (QLatin1String "ab" ++ NUL ++ QLatin1String "cd")
   = QLatin1String "cd").
Proof.
  assert (H0 : ~ In Null (QLatin1String "abcd"))
    by (apply not_In_find; by_computation).
  assert (H1 : ~ In Null (QLatin1String "ab"))
    by (apply not_In_find; by_computation).
  assert (H2 : ~ In Null (QLatin1String "cd"))
    by (apply not_In_find; by_computation).
  split.
  - split; [exact H0|].
    exact (proj2 (proj2 (proj1 processLine_missing_separators
                               (QLatin1String "abcd") H0))).
  - split; [exact (conj H1 H2)|].
    exact (proj1 (proj2 (proj2 processLine_missing_separators
                               (QLatin1String "ab") (QLatin1String "cd") H1 H2))).
Defined.

(** X8 at the scenario line read by a runner nobody cancels. *)
Lemma read_never_finishes_or_cancels_witness :
  cancelRequest (m_fi (runnerOn freshFuture)) = None /\
  canceled (m_fi (read (runnerOn freshFuture) scenarioLine)) = false /\
  cancelRequest (m_fi (read (runnerOn freshFuture) scenarioLine)) = None.
Proof.
  split; [reflexivity|].
  exact (proj2 (read_never_finishes_or_cancels (runnerOn freshFuture) scenarioLine)
               eq_refl).
Defined.

(** X9 at the scenario line followed by a line with two spans. *)
Lemma chunkRecords_crlf_witness :
  (~ In LF scenarioLine /\ ~ In CR scenarioLine) /\
  chunkRecords (QLatin1String "/repo") [] (scenarioLine ++ CR :: LF :: twoSpansLine)
  = chunkRecords (QLatin1String "/repo") [] (scenarioLine ++ LF :: twoSpansLine).
Proof.
  assert (H1 : ~ In LF scenarioLine) by (apply not_In_find; by_computation).
  assert (H2 : ~ In CR scenarioLine) by (apply not_In_find; by_computation).
  split; [exact (conj H1 H2)|].
  exact (chunkRecords_crlf (QLatin1String "/repo") [] scenarioLine twoSpansLine
           H1 H2).
Defined.

(** X10 at the scenario line as a chunk of its own. *)
Lemma chunkRecords_unterminated_line_witness :
  (~ In LF scenarioLine /\ ~ In CR scenarioLine) /\
  chunkRecords (QLatin1String "/repo") [] scenarioLine
  = processLine (QLatin1String "/repo") [] scenarioLine [] /\
  chunkRecords (QLatin1String "/repo") [] (scenarioLine ++ [CR])
  = processLine (QLatin1String "/repo") [] scenarioLine [].
Proof.
  assert (H1 : ~ In LF scenarioLine) by (apply not_In_find; by_computation).
  assert (H2 : ~ In CR scenarioLine) by (apply not_In_find; by_computation).
  split; [exact (conj H1 H2)|].
  exact (chunkRecords_unterminated_line (QLatin1String "/repo") [] scenarioLine
           H1 H2).
Defined.

(** X11 at a search in the reference "main" whose process ends abnormally
    after one line. *)
Lemma run_publishes_chunk_records_witness :
  (quiet freshFuture /\ finished freshFuture = false) /\
  publishedRecords
    (run 2 4 8 (printingProcess [mainLine ++ [LF]] TerminatedAbnormally)
         freshFuture mainParameters)
  = publishedRecords freshFuture
      ++ concat (map (chunkRecords (QLatin1String "/repo")
                                   (QLatin1String "main" ++ [QLatin1Char ":"]))
                     [mainLine ++ [LF]]).
Proof.
  assert (Q : quiet freshFuture) by (split; reflexivity).
  split; [exact (conj Q eq_refl)|].
  exact (run_publishes_chunk_records 2 4 8
           (printingProcess [mainLine ++ [LF]] TerminatedAbnormally)
           freshFuture mainParameters Q eq_refl).
Defined.

(** X12 at a canceled future and a process that prints the scenario chunks. *)
Lemma executeSearch_canceled_before_start_witness :
  canceled canceledFuture = true /\
  results (executeSearch 2 4 8 (printingProcess scenarioChunks Finished)
                         canceledFuture noParameters)
  = results canceledFuture /\
  outcome (executeSearch 2 4 8 (printingProcess scenarioChunks Finished)
                         canceledFuture noParameters)
  = Some Canceled.
Proof.
  split; [reflexivity|].
  exact (executeSearch_canceled_before_start 2 4 8
           (printingProcess scenarioChunks Finished) canceledFuture noParameters
           eq_refl).
Defined.

(** X13 at a file that differs from its revision. *)
Lemma openEditor_opens_only_differing_revision_witness :
  openEditor sameSeparators belowRepo (fun _ _ => Some oldBytes)
             (fun _ => Some newBytes) plainTitle mainItem mainParameters
  = Some revisionEditor /\
  exists (first : QString) (others : QStringList),
    path mainItem = first :: others /\
    isEnabled (extensionParameters mainParameters) = true /\
    ref (extensionParameters mainParameters) <> [] /\
    revisionContent sameSeparators belowRepo (fun _ _ => Some oldBytes)
                    mainParameters first
    = Some (contents revisionEditor) /\
    contents revisionEditor <> [] /\
    Some newBytes <> Some (contents revisionEditor) /\
    temporary revisionEditor = true /\
    gotoLine revisionEditor = (item_lineNumber mainItem, textMarkPos mainItem) /\
    title revisionEditor
    = plainTitle (ref (extensionParameters mainParameters))
                 (belowRepo (additionalParameters mainParameters)
                            (sameSeparators first)).
Proof.
  assert (H : openEditor sameSeparators belowRepo (fun _ _ => Some oldBytes)
                         (fun _ => Some newBytes) plainTitle mainItem
                         mainParameters
              = Some revisionEditor) by by_computation.
  split; [exact H|].
  exact (openEditor_opens_only_differing_revision sameSeparators belowRepo
           (fun _ _ => Some oldBytes) (fun _ => Some newBytes) plainTitle
           mainItem mainParameters revisionEditor H).
Defined.

(** X14 at the widgets of a search in "main", read into cleared widgets. *)
Lemma readSettings_writeSettings_witness :
  (length (m_treeLineEdit mainWidget) <= maxLength)%nat /\
  m_enabledCheckBox
    (readSettings (mkGitGrep true false []) (writeSettings mainWidget otherSettings))
  = true /\
  m_treeLineEdit
    (readSettings (mkGitGrep true false []) (writeSettings mainWidget otherSettings))
  = QLatin1String "main".
Proof.
  assert (H : (length (m_treeLineEdit mainWidget) <= maxLength)%nat)
    by (unfold maxLength; cbn; lia).
  split; [exact H|].
  pose proof (readSettings_writeSettings mainWidget (mkGitGrep true false [])
                otherSettings H) as X.
  exact (conj (proj1 X) (proj1 (proj2 X))).
Defined.

(** X15 at settings that hold another key only. *)
Lemma readSettings_defaults_witness :
  Forall (fun entry => fst entry <> EnableGitGrep /\ fst entry <> GitGrepRef)
         otherSettings /\
  m_enabledCheckBox (readSettings mainWidget otherSettings) = false /\
  m_treeLineEdit (readSettings mainWidget otherSettings) = [] /\
  isEnabled (parameters (readSettings mainWidget otherSettings)) = false.
Proof.
  assert (H : Forall (fun entry => fst entry <> EnableGitGrep /\
                                   fst entry <> GitGrepRef) otherSettings)
    by (repeat constructor; discriminate).
  split; [exact H|].
  exact (readSettings_defaults mainWidget otherSettings H).
Defined.

(** X16 at the key of another setting. *)
Lemma writeSettings_overwrites_witness :
  (QLatin1String "Other" <> EnableGitGrep /\ QLatin1String "Other" <> GitGrepRef) /\
  value (writeSettings mainWidget otherSettings) (QLatin1String "Other") Invalid
  = value otherSettings (QLatin1String "Other") Invalid.
Proof.
  assert (H1 : QLatin1String "Other" <> EnableGitGrep) by discriminate.
  assert (H2 : QLatin1String "Other" <> GitGrepRef) by discriminate.
  split; [exact (conj H1 H2)|].
  exact (proj1 (writeSettings_overwrites mainWidget mainWidget otherSettings)
               (QLatin1String "Other") Invalid H1 H2).
Defined.

(** ** Test tree items *)

Section TestTree.

Lemma ItemType_eqb_eq (a b : ItemType) : ItemType_eqb a b = true <-> a = b.
Proof. destruct a, b; cbn; split; congruence. Qed.

Lemma CheckState_eqb_eq (a b : CheckState) : CheckState_eqb a b = true <-> a = b.
Proof. destruct a, b; cbn; split; congruence. Qed.

Lemma QString_eqb_refl (a : QString) : QString_eqb a a = true.
Proof. now apply QString_eqb_eq. Qed.

Lemma ItemType_eqb_refl (a : ItemType) : ItemType_eqb a a = true.
Proof. now destruct a. Qed.

(** The tests of [modifyContent], one after the other. *)
Ltac modifyContent_tests :=
  unfold modifyContent;
  repeat (match goal with
          | |- context [negb (QString_eqb ?a ?b)] => destruct (QString_eqb a b) eqn:?
          | |- context [negb (N.eqb ?a ?b)] => destruct (N.eqb a b) eqn:?
          | |- context [negb (ItemType_eqb ?a ?b)] => destruct (ItemType_eqb a b) eqn:?
          | |- context [negb (Bool.eqb ?a ?b)] => destruct (Bool.eqb a b) eqn:?
          end;
          cbn [negb fst snd m_name m_filePath m_checked m_type m_line m_column
                    m_mainFile m_referencingFile m_state m_markedForRemoval
                    set_m_filePath set_m_name set_m_line set_m_mainFile
                    set_m_referencingFile set_m_type set_m_state
                    set_m_markedForRemoval]).

Ltac eqb_to_eq :=
  repeat match goal with
         | H : QString_eqb _ _ = true |- _ => apply QString_eqb_eq in H
         | H : N.eqb _ _ = true |- _ => apply N.eqb_eq in H
         | H : ItemType_eqb _ _ = true |- _ => apply ItemType_eqb_eq in H
         | H : Bool.eqb _ _ = true |- _ => apply Bool.eqb_prop in H
         end.

(** X17.  After [modifyContent] the item has the file path, name, line,
    main file, referencing file, type, state and removal mark of the
    modified item; its check state and its column are left as they were. *)
Theorem modifyContent_takes_over (this modified : ItemData) :
  let this' := snd (modifyContent this modified) in
  m_filePath this' = m_filePath modified /\
  m_name this' = m_name modified /\
  m_line this' = m_line modified /\
  m_mainFile this' = m_mainFile modified /\
  m_referencingFile this' = m_referencingFile modified /\
  m_type this' = m_type modified /\
  m_state this' = m_state modified /\
  m_markedForRemoval this' = m_markedForRemoval modified /\
  m_checked this' = m_checked this /\
  m_column this' = m_column this.
Proof.
  cbv zeta. modifyContent_tests; eqb_to_eq; repeat split; congruence.
Qed.

(** X18.  [modifyContent] reports no modification exactly when file path,
    name, line, main file, referencing file, type and state are the same in
    both items: a removal mark that differs is taken over without being
    reported, and so is nothing else. *)
Theorem modifyContent_reports (this modified : ItemData) :
  fst (modifyContent this modified) = false <->
  m_filePath this = m_filePath modified /\
  m_name this = m_name modified /\
  m_line this = m_line modified /\
  m_mainFile this = m_mainFile modified /\
  m_referencingFile this = m_referencingFile modified /\
  m_type this = m_type modified /\
  m_state this = m_state modified.
Proof.
  modifyContent_tests; eqb_to_eq;
    (split; [intros E; try discriminate E; repeat split; assumption|]);
    intros (E1 & E2 & E3 & E4 & E5 & E6 & E7); try reflexivity; exfalso;
    repeat match goal with
           | H : QString_eqb ?a ?b = false, E : ?a = ?b |- _ =>
               rewrite E, QString_eqb_refl in H; discriminate H
           | H : N.eqb ?a ?b = false, E : ?a = ?b |- _ =>
               rewrite E, N.eqb_refl in H; discriminate H
           | H : ItemType_eqb ?a ?b = false, E : ?a = ?b |- _ =>
               rewrite E, ItemType_eqb_refl in H; discriminate H
           end.
Qed.

Lemma modifyContent_same (this modified : ItemData) :
  m_filePath this = m_filePath modified -> m_name this = m_name modified ->
  m_line this = m_line modified -> m_mainFile this = m_mainFile modified ->
  m_referencingFile this = m_referencingFile modified ->
  m_type this = m_type modified -> m_state this = m_state modified ->
  m_markedForRemoval this = m_markedForRemoval modified ->
  modifyContent this modified = (false, this).
Proof.
  intros E1 E2 E3 E4 E5 E6 E7 E8.
  modifyContent_tests; try reflexivity; exfalso;
    repeat match goal with
           | H : QString_eqb ?a ?b = false, E : ?a = ?b |- _ =>
               rewrite E, QString_eqb_refl in H; discriminate H
           | H : N.eqb ?a ?b = false, E : ?a = ?b |- _ =>
               rewrite E, N.eqb_refl in H; discriminate H
           | H : ItemType_eqb ?a ?b = false, E : ?a = ?b |- _ =>
               rewrite E, ItemType_eqb_refl in H; discriminate H
           | H : Bool.eqb ?a ?b = false, E : ?a = ?b |- _ =>
               rewrite E, Bool.eqb_reflx in H; discriminate H
           end.
Qed.

(** X19.  Modifying an item a second time with the same content changes
    nothing and reports no modification. *)
Theorem modifyContent_twice (this modified : ItemData) :
  modifyContent (snd (modifyContent this modified)) modified
  = (false, snd (modifyContent this modified)).
Proof.
  pose proof (modifyContent_takes_over this modified) as H. cbv zeta in H.
  destruct H as (E1 & E2 & E3 & E4 & E5 & E6 & E7 & E8 & _).
  now apply modifyContent_same.
Qed.

Lemma revalidateRows_spec (d : ItemData) (rows : list TestTreeItem) :
  forall foundChecked foundUnchecked : bool,
    foundChecked && foundUnchecked = false ->
    let states := countedStates d rows in
    let anyChecked :=
      foundChecked || existsb (fun s => negb (CheckState_eqb s Unchecked)) states in
    let anyUnchecked :=
      foundUnchecked || existsb (fun s => CheckState_eqb s Unchecked) states in
    revalidateRows d rows foundChecked foundUnchecked
    = if anyChecked && anyUnchecked then PartiallyChecked
      else if anyUnchecked then Unchecked else Checked.
Proof.
  induction rows as [|child rows IH]; intros fc fu H; cbv zeta.
  - cbn. rewrite !orb_false_r, H. reflexivity.
  - unfold countedStates, counted. cbn [revalidateRows filter].
    destruct (m_type (itemData child)) eqn:T; cbn [map existsb];
      try (apply IH; exact H);
      (destruct (CheckState_eqb (checked (Some d) (itemData child)) Unchecked) eqn:S;
       cbn [negb]; rewrite ?orb_true_r, ?orb_false_r;
       destruct fc, fu; cbn [orb andb] in *; try discriminate H;
       try (rewrite IH by reflexivity; cbv zeta; fold (countedStates d rows);
            cbn [orb andb]; reflexivity);
       try reflexivity).
    all: try (destruct (existsb _ _); reflexivity).
Qed.

(** X20.  [revalidateCheckState] gives an item with children the summary
    of the children it looks at (all but data functions and special
    functions): partially checked when some of them are checked and some
    are not, unchecked when there are some and none is checked, checked
    otherwise.  Nothing else of the item changes, and an item without
    children is left alone. *)
Theorem revalidateCheckState_summary (d : ItemData) (children : list TestTreeItem) :
  let states := countedStates d children in
  let anyChecked := existsb (fun s => negb (CheckState_eqb s Unchecked)) states in
  let anyUnchecked := existsb (fun s => CheckState_eqb s Unchecked) states in
  revalidateCheckState (Item d children)
  = match children with
    | [] => Item d children
    | _ :: _ =>
        Item (set_m_checked d
                (if anyChecked && anyUnchecked then PartiallyChecked
                 else if anyUnchecked then Unchecked else Checked))
             children
    end.
Proof.
  cbv zeta. destruct children as [|c children]; [reflexivity|].
  unfold revalidateCheckState.
  rewrite (revalidateRows_spec d (c :: children) false false eq_refl).
  reflexivity.
Qed.

Lemma setChecked_eq (d : ItemData) (children : list TestTreeItem)
      (checkState : CheckState) :
  setChecked (Item d children) checkState
  = match m_type d with
    | TestFunction | GTestName =>
        (Item (set_m_checked d (usedState checkState)) children, true)
    | TestClass | GTestCase | GTestCaseParameterized =>
        let '(d', children') :=
          setCheckedRows setChecked (usedState checkState) d [] children in
        (Item (set_m_checked d' (usedState checkState)) children', false)
    | _ => (Item d children, false)
    end.
Proof. reflexivity. Qed.

Lemma set_m_checked_twice (d : ItemData) (v w : CheckState) :
  set_m_checked (set_m_checked d v) w = set_m_checked d w.
Proof. reflexivity. Qed.

Lemma revalidateCheckState_data (d : ItemData) (children : list TestTreeItem)
      (v : CheckState) :
  set_m_checked (itemData (revalidateCheckState (Item d children))) v
  = set_m_checked d v.
Proof.
  unfold revalidateCheckState. destruct children; reflexivity.
Qed.

(** The loop sets every row, and the revalidations on the way touch nothing
    but the check state of the item. *)
Lemma setCheckedRows_spec
      (f : TestTreeItem -> CheckState -> TestTreeItem * bool) (state : CheckState)
      (todo : list TestTreeItem) :
  forall (d : ItemData) (done : list TestTreeItem),
    snd (setCheckedRows f state d done todo)
    = done ++ map (fun child => fst (f child state)) todo /\
    forall v, set_m_checked (fst (setCheckedRows f state d done todo)) v
              = set_m_checked d v.
Proof.
  induction todo as [|child todo IH]; intros d done.
  - cbn. now rewrite app_nil_r.
  - cbn [setCheckedRows map]. destruct (f child state) as [child' revalidate].
    cbn [fst].
    match goal with
    | |- context [setCheckedRows f state ?d1 ?done1 todo] =>
        destruct (IH d1 done1) as [E1 E2]
    end.
    rewrite E1, <- app_assoc. split; [reflexivity|].
    intros v. rewrite E2. destruct revalidate; [|reflexivity].
    apply revalidateCheckState_data.
Qed.

(** X21.  [setChecked] on a test class or test case sets every child and
    then the item itself to the state asked for (checked unless the state
    asked for is unchecked); the revalidations that the children trigger on
    the way leave no trace, and the parent of the item is not revalidated. *)
Theorem setChecked_class (d : ItemData) (children : list TestTreeItem)
        (checkState : CheckState) :
  m_type d = TestClass \/ m_type d = GTestCase \/ m_type d = GTestCaseParameterized ->
  setChecked (Item d children) checkState
  = (Item (set_m_checked d (usedState checkState))
          (map (fun child => fst (setChecked child (usedState checkState)))
               children),
     false).
Proof.
  intros T. rewrite setChecked_eq.
  destruct (setCheckedRows_spec setChecked (usedState checkState) children d [])
    as [E1 E2].
  destruct (setCheckedRows _ _ _ _ _) as [d' children']. cbn [fst snd app] in *.
  rewrite E1, E2. destruct T as [-> | [-> | ->]]; reflexivity.
Qed.

Lemma existsb_const {A : Type} (p : CheckState -> bool) (s : CheckState)
      (l : list A) :
  existsb p (map (fun _ => s) l) = match l with [] => false | _ :: _ => p s end.
Proof.
  induction l as [|a l IH]; [reflexivity|].
  cbn [map existsb]. rewrite IH. destruct (p s), l; reflexivity.
Qed.

Lemma usedState_twice (s : CheckState) : usedState (usedState s) = usedState s.
Proof. now destruct s. Qed.

(** What [setChecked] leaves of a child: its type, and for a type with a
    state of its own that state. *)
Lemma setChecked_child (child : TestTreeItem) (s : CheckState) :
  m_type (itemData (fst (setChecked child s))) = m_type (itemData child) /\
  (ownsCheckState (m_type (itemData child)) = true ->
   m_checked (itemData (fst (setChecked child s))) = usedState s) /\
  (ownsCheckState (m_type (itemData child)) = false ->
   fst (setChecked child s) = child).
Proof.
  destruct child as [d children]. rewrite setChecked_eq.
  destruct (setCheckedRows_spec setChecked (usedState s) children d []) as [_ E2].
  destruct (setCheckedRows _ _ _ _ _) as [d' children']. cbn [fst] in E2.
  assert (Et : m_type d' = m_type d) by exact (f_equal m_type (E2 Unchecked)).
  cbn [itemData].
  destruct (m_type d) eqn:T; cbn [fst itemData ownsCheckState m_type m_checked
                                      set_m_checked];
    repeat split; try discriminate; try reflexivity; try assumption.
Qed.

(** X22.  After [setChecked] on a test class or test case the check state
    of the item agrees with its children: revalidating it changes nothing,
    as long as the state asked for is not unchecked or the item has a child
    that the revalidation looks at (or no child at all). *)
Theorem setChecked_class_is_valid (d : ItemData) (children : list TestTreeItem)
        (checkState : CheckState) :
  m_type d = TestClass \/ m_type d = GTestCase \/ m_type d = GTestCaseParameterized ->
  usedState checkState = Checked \/ existsb counted children = true \/ children = [] ->
  revalidateCheckState (fst (setChecked (Item d children) checkState))
  = fst (setChecked (Item d children) checkState).
Proof.
  intros T H. rewrite (setChecked_class d children checkState T). cbn [fst].
  set (s := usedState checkState) in *.
  set (d' := set_m_checked d s).
  set (children' := map (fun child => fst (setChecked child s)) children).
  destruct children as [|c children]; [reflexivity|].
  assert (S : forall rows,
             countedStates d' (map (fun child => fst (setChecked child s)) rows)
             = map (fun _ => s) (filter counted rows)).
  { induction rows as [|r rows IH]; [reflexivity|].
    unfold countedStates in *. cbn [map filter].
    destruct (setChecked_child r s) as (Et & Eo & _).
    assert (Ec : counted (fst (setChecked r s)) = counted r)
      by (unfold counted; rewrite Et; reflexivity).
    rewrite Ec. destruct (counted r) eqn:Cr; cbn [map]; rewrite IH;
      [f_equal | reflexivity].
    unfold checked. rewrite Et. unfold counted in Cr.
    destruct (m_type (itemData r)) eqn:Tr; try discriminate Cr;
      try reflexivity;
      (rewrite Eo by reflexivity; unfold s; apply usedState_twice). }
  unfold revalidateCheckState. subst children'. cbn [map].
  change (fst (setChecked c s) :: map (fun child => fst (setChecked child s)) children)
    with (map (fun child => fst (setChecked child s)) (c :: children)).
  rewrite (revalidateRows_spec d' _ false false eq_refl). cbv zeta.
  rewrite (S (c :: children)). cbn [orb].
  assert (U : s = Unchecked \/ s = Checked)
    by (unfold s, usedState; destruct (CheckState_eqb checkState Unchecked); auto).
  assert (E : (if existsb (fun s0 => negb (CheckState_eqb s0 Unchecked))
                          (map (fun _ => s) (filter counted (c :: children)))
                  && existsb (fun s0 => CheckState_eqb s0 Unchecked)
                             (map (fun _ => s) (filter counted (c :: children)))
               then PartiallyChecked
               else if existsb (fun s0 => CheckState_eqb s0 Unchecked)
                               (map (fun _ => s) (filter counted (c :: children)))
                    then Unchecked else Checked) = s).
  { rewrite !existsb_const.
    destruct (filter counted (c :: children)) as [|x l] eqn:F.
    - destruct H as [H|[H|H]]; [symmetry; exact H | | discriminate H].
      apply existsb_exists in H as (x & Hx & Cx).
      assert (I : In x (filter counted (c :: children)))
        by (apply filter_In; auto).
      rewrite F in I. contradiction.
    - destruct U as [U|U]; rewrite U; reflexivity. }
  rewrite E. unfold d'. reflexivity.
Qed.

Lemma TestTreeItem_induction (P : TestTreeItem -> Prop) :
  (forall d children, Forall P children -> P (Item d children)) ->
  forall item, P item.
Proof.
  intros H. fix IH 1. intros [d children]. apply H.
  induction children as [|c children IHc]; constructor; [apply IH | exact IHc].
Qed.

(** X23.  [markForRemovalRecursively] sets the removal mark of the item and
    of every item below it, and leaves every other member of every item as
    it was; a second call replaces the mark of the first. *)
Theorem markForRemovalRecursively_all (item : TestTreeItem) (mark mark' : bool) :
  allItems (markForRemovalRecursively item mark)
  = map (fun d => set_m_markedForRemoval d mark) (allItems item) /\
  Forall (fun d => m_markedForRemoval d = mark)
         (allItems (markForRemovalRecursively item mark)) /\
  markForRemovalRecursively (markForRemovalRecursively item mark') mark
  = markForRemovalRecursively item mark.
Proof.
  assert (A : forall item,
             allItems (markForRemovalRecursively item mark)
             = map (fun d => set_m_markedForRemoval d mark) (allItems item)).
  { induction item0 as [d children IH] using TestTreeItem_induction.
    cbn [markForRemovalRecursively allItems map]. f_equal.
    induction IH as [|c children Hc _ IHc]; [reflexivity|].
    cbn [map flat_map]. now rewrite map_app, Hc, IHc. }
  split; [apply A|]. split.
  - rewrite A. apply Forall_map, Forall_forall. reflexivity.
  - induction item as [d children IH] using TestTreeItem_induction.
    cbn [markForRemovalRecursively]. f_equal. rewrite map_map.
    induction IH as [|c children Hc _ IHc]; [reflexivity|].
    cbn [map]. now rewrite Hc, IHc.
Qed.

Lemma m_type_set_m_checked (d : ItemData) (v : CheckState) :
  m_type (set_m_checked d v) = m_type d.
Proof. reflexivity. Qed.

Lemma m_checked_set_m_checked (d : ItemData) (v : CheckState) :
  m_checked (set_m_checked d v) = v.
Proof. reflexivity. Qed.

Lemma countedStates_app (d : ItemData) (rows rows' : list TestTreeItem) :
  countedStates d (rows ++ rows') = countedStates d rows ++ countedStates d rows'.
Proof.
  unfold countedStates. now rewrite filter_app, map_app.
Qed.

Lemma forallb_unchecked (states : list CheckState) :
  forallb (fun s => CheckState_eqb (usedState s) Unchecked) states
  = negb (existsb (fun s => negb (CheckState_eqb s Unchecked)) states).
Proof.
  induction states as [|s states IH]; [reflexivity|].
  cbn [forallb existsb]. rewrite IH. now destruct s.
Qed.

Lemma forallb_checked (states : list CheckState) :
  forallb (fun s => CheckState_eqb (usedState s) Checked) states
  = negb (existsb (fun s => CheckState_eqb s Unchecked) states).
Proof.
  induction states as [|s states IH]; [reflexivity|].
  cbn [forallb existsb]. rewrite IH. now destruct s.
Qed.

(** X24.  [setChecked] on a test function (or a named Google test) in row
    [row] of a parent sets the state of that child and revalidates the
    parent: the parent ends checked or unchecked like the child when every
    other child that the revalidation looks at agrees with it (partially
    checked counting as checked), and partially checked otherwise.  The
    other children are not touched. *)
Theorem setCheckedChild_function
        (d : ItemData) (children : list TestTreeItem) (row : nat)
        (child : TestTreeItem) (checkState : CheckState) :
  nth_error children row = Some child ->
  m_type (itemData child) = TestFunction \/ m_type (itemData child) = GTestName ->
  exists parent',
    setCheckedChild (Item d children) row checkState = Some parent' /\
    childItems parent'
    = firstn row children
      ++ Item (set_m_checked (itemData child) (usedState checkState))
              (childItems child)
      :: skipn (S row) children /\
    itemData parent'
    = set_m_checked d
        (if forallb (fun s => CheckState_eqb (usedState s) (usedState checkState))
                    (countedStates d (firstn row children ++ skipn (S row) children))
         then usedState checkState
         else PartiallyChecked).
Proof.
  intros R T. unfold setCheckedChild. rewrite R.
  destruct child as [dc cc]. cbn [itemData childItems] in *.
  rewrite setChecked_eq.
  set (child' := Item (set_m_checked dc (usedState checkState)) cc).
  assert (E : (let '(c, revalidate) :=
                 match m_type dc with
                 | TestFunction | GTestName => (child', true)
                 | TestClass | GTestCase | GTestCaseParameterized =>
                     let '(d', children') :=
                       setCheckedRows setChecked (usedState checkState) dc [] cc in
                     (Item (set_m_checked d' (usedState checkState)) children', false)
                 | _ => (Item dc cc, false)
                 end in
               let parent' :=
                 Item d (firstn row children ++ c :: skipn (S row) children) in
               Some (if revalidate then revalidateCheckState parent' else parent'))
              = Some (revalidateCheckState
                        (Item d (firstn row children ++ child'
                                        :: skipn (S row) children))))
    by (destruct T as [-> | ->]; reflexivity).
  eexists. split; [exact E|]. clear E.
  unfold revalidateCheckState.
  destruct (firstn row children ++ child' :: skipn (S row) children)
    as [|x l] eqn:L; [destruct (firstn row children); discriminate L|].
  rewrite <- L. cbn [childItems itemData]. split; [reflexivity|]. f_equal.
  rewrite (revalidateRows_spec d _ false false eq_refl). cbv zeta. cbn [orb].
  assert (C : countedStates d [child'] = [usedState checkState]).
  { unfold countedStates, counted, checked, child'. cbn [filter itemData].
    rewrite m_type_set_m_checked.
    destruct T as [T|T]; rewrite T; cbn [map itemData];
      rewrite m_type_set_m_checked, T, m_checked_set_m_checked; reflexivity. }
  change (firstn row children ++ child' :: skipn (S row) children)
    with (firstn row children ++ [child'] ++ skipn (S row) children).
  rewrite !countedStates_app, C, !existsb_app. cbn [existsb app].
  rewrite !orb_false_r.
  assert (U : usedState checkState = Unchecked \/ usedState checkState = Checked)
    by (unfold usedState; destruct (CheckState_eqb checkState Unchecked); auto).
  destruct U as [U|U]; rewrite U.
  - rewrite forallb_unchecked, existsb_app. cbn [CheckState_eqb negb].
    repeat match goal with |- context [existsb ?p ?l] =>
      destruct (existsb p l) end; reflexivity.
  - rewrite forallb_checked, existsb_app. cbn [CheckState_eqb negb].
    repeat match goal with |- context [existsb ?p ?l] =>
      destruct (existsb p l) end; reflexivity.
Qed.

End TestTree.

(** The test tree properties on a class with two test functions. *)

Lemma setChecked_class_witness :
  (m_type (itemData exampleClass) = TestClass \/
   m_type (itemData exampleClass) = GTestCase \/
   m_type (itemData exampleClass) = GTestCaseParameterized) /\
  setChecked exampleClass PartiallyChecked
  = (Item (set_m_checked (itemData exampleClass) (usedState PartiallyChecked))
          (map (fun child => fst (setChecked child (usedState PartiallyChecked)))
               (childItems exampleClass)),
     false).
Proof.
  split; [left; reflexivity|].
  apply (setChecked_class (itemData exampleClass) (childItems exampleClass)
                          PartiallyChecked).
  left; reflexivity.
Defined.

Lemma setChecked_class_is_valid_witness :
  existsb counted (childItems exampleClass) = true /\
  revalidateCheckState (fst (setChecked exampleClass Unchecked))
  = fst (setChecked exampleClass Unchecked).
Proof.
  split; [reflexivity|].
  apply (setChecked_class_is_valid (itemData exampleClass)
                                   (childItems exampleClass) Unchecked).
  - left; reflexivity.
  - right; left; reflexivity.
Defined.

Lemma setCheckedChild_function_witness :
  nth_error (childItems exampleClass) 1
  = Some (exampleFunction "second" Unchecked true) /\
  exists parent',
    setCheckedChild exampleClass 1 Checked = Some parent' /\
    childItems parent'
    = [exampleFunction "first" Checked false;
       exampleFunction "second" Checked true] /\
    m_checked (itemData parent') = Checked.
Proof.
  split; [reflexivity|].
  destruct (setCheckedChild_function
              (itemData exampleClass) (childItems exampleClass) 1
              (exampleFunction "second" Unchecked true) Checked
              eq_refl (or_introl eq_refl))
    as (parent' & E & C & D).
  exists parent'. split; [exact E|]. split; [exact C|].
  rewrite D. reflexivity.
Defined.

(** ** The extension as the find dialog uses it *)

Section SearchExtension.

Variable fromNativeSeparators : QString -> QString.
Variable relativeFilePath : QString -> QString -> QString.
Variable synchronousShow : QString -> QString -> option QByteArray.
Variable readFileUTF8 : QString -> option QByteArray.
Variable gitShowTitle : QString -> QString -> QString.

(** X25.  The parameters that [parameters] hands to a search carry the
    state of the extension at that time: [isEnabled] on them holds exactly
    when the path was a directory under Git and the check box was set.  With
    parameters taken while the path is not under Git, the check box is clear
    or the reference is empty, [openEditor] opens no editor, whatever the
    item, the revision and the file on disk are. *)
Theorem openEditor_needs_enabled_extension
        (g : GitGrep) (valid : bool) (item : SearchResultItem)
        (p : FileFindParameters) :
  extensionParameters p = parameters (pathChanged g valid) ->
  (GitGrep_isEnabledFor p = true <-> valid = true /\ m_enabledCheckBox g = true) /\
  (valid = false \/ m_enabledCheckBox g = false \/ m_treeLineEdit g = [] ->
   openEditor fromNativeSeparators relativeFilePath synchronousShow readFileUTF8
              gitShowTitle item p = None).
Proof.
  intros E. unfold GitGrep_isEnabledFor, openEditor. cbv zeta. rewrite E.
  unfold parameters, pathChanged, GitGrep_isEnabled.
  cbn [isEnabled ref m_widget m_enabledCheckBox m_treeLineEdit].
  split; [apply andb_true_iff|].
  intros H. destruct (path item) as [|first others]; [reflexivity|].
  destruct H as [-> | [-> | ->]]; cbn [andb negb orb isEmpty];
    rewrite ?andb_false_r, ?orb_true_r; reflexivity.
Qed.

End SearchExtension.

(** X25 at a search in "main": started while the path is under Git and the
    check box is set, and started while the path is not under Git. *)
Lemma openEditor_needs_enabled_extension_witness :
  extensionParameters mainParameters = parameters (pathChanged mainWidget true) /\
  (GitGrep_isEnabledFor mainParameters = true
   <-> true = true /\ m_enabledCheckBox mainWidget = true) /\
  (GitGrep_isEnabledFor
     (mkFileFindParameters (text mainParameters) (flags mainParameters)
                           (nameFilters mainParameters)
                           (additionalParameters mainParameters)
                           (parameters (pathChanged mainWidget false))) = true
   <-> false = true /\ m_enabledCheckBox mainWidget = true) /\
  openEditor sameSeparators belowRepo (fun _ _ => Some oldBytes)
             (fun _ => Some newBytes) plainTitle mainItem
             (mkFileFindParameters (text mainParameters) (flags mainParameters)
                                   (nameFilters mainParameters)
                                   (additionalParameters mainParameters)
                                   (parameters (pathChanged mainWidget false)))
  = None.
Proof.
  assert (E : extensionParameters mainParameters
              = parameters (pathChanged mainWidget true)) by reflexivity.
  split; [exact E|].
  split.
  - exact (proj1 (openEditor_needs_enabled_extension
                    sameSeparators belowRepo (fun _ _ => Some oldBytes)
                    (fun _ => Some newBytes) plainTitle mainWidget true mainItem
                    mainParameters E)).
  - destruct (openEditor_needs_enabled_extension
                sameSeparators belowRepo (fun _ _ => Some oldBytes)
                (fun _ => Some newBytes) plainTitle mainWidget false mainItem
                (mkFileFindParameters (text mainParameters) (flags mainParameters)
                                      (nameFilters mainParameters)
                                      (additionalParameters mainParameters)
                                      (parameters (pathChanged mainWidget false)))
                eq_refl) as [I N].
    split; [exact I|]. apply N. left; reflexivity.
Defined.
